(** * Sync registry bootstrap (apps/sim/stores/sync-registry.ts)

    A shallow embedding of the module: its three module-level variables,
    the imported collaborators as an interface, the async function
    [initializeSyncManagers] as a resumption (one segment of synchronous
    code per [await]), and the three synchronous exports. *)

From Stdlib Require Import Bool List String ZArith Lia.
Import ListNotations.
Local Open Scope string_scope.
Local Open Scope list_scope.

Set Implicit Arguments.

(** ** Results of calls and of statements *)

(** A call either returns a value or throws. *)
Inductive Outcome (E A : Type) : Type :=
| Ok (a : A)
| Raise (e : E).
Arguments Ok {E A} a.
Arguments Raise {E A} e.

(** How a statement of the function body completes: it falls through,
    executes a [return], or throws. *)
Inductive Completion (E : Type) : Type :=
| Normal
| Return (r : bool)
| Throw (e : E).
Arguments Normal {E}.
Arguments Return {E} r.
Arguments Throw {E} e.

(** What an [await] is waiting for: the promise of
    [fetchWorkflowsFromDB()] (line 54) or a timer (line 59). *)
Inductive Awaited : Type :=
| AwaitFetch
| AwaitTimer (ms : Z).

(** Collaborator invocations, recorded in call order. *)
Inductive Call : Type :=
| CIsLocalStorageMode
| CResetRegistryInitialization
| CFetchWorkflowsFromDB
| CIsRegistryInitialized.

Definition Call_eqb (a b : Call) : bool :=
  match a, b with
  | CIsLocalStorageMode, CIsLocalStorageMode
  | CResetRegistryInitialization, CResetRegistryInitialization
  | CFetchWorkflowsFromDB, CFetchWorkflowsFromDB
  | CIsRegistryInitialized, CIsRegistryInitialized => true
  | _, _ => false
  end.

Definition invoked (c : Call) (l : list Call) : bool := existsb (Call_eqb c) l.

(** Lines written to the logger. *)
Inductive LogEntry (E : Type) : Type :=
| LInfo (msg : string)
| LWarn (msg : string)
| LError (msg : string) (error : E).
Arguments LInfo {E} msg.
Arguments LWarn {E} msg.
Arguments LError {E} msg error.

(** ** The imports of the module

    [World] is everything outside the module (storage mode, registry,
    database), [Err] the thrown values, [SyncManager] the opaque handle.
    The two predicates read the world and may throw;
    [resetRegistryInitialization] may change the world and may throw.

    Modelled from the spec: [fetchWorkflowsFromDB] (stores/workflows/sync)
    is an async operation returning a promise.  The function below is the
    synchronous part of a call, up to the promise it hands back; a failure
    of the fetch is a rejection of that promise, decided later by whoever
    resumes the suspended caller. *)
Record Imports (World Err SyncManager : Type) : Type := {
  isLocalStorageMode : World -> Outcome Err bool;
  fetchWorkflowsFromDB : World -> World;
  isRegistryInitialized : World -> Outcome Err bool;
  resetRegistryInitialization : World -> World * Outcome Err unit;
  workflowSync : SyncManager
}.

Section SyncRegistry.

Variables World Err SyncManager : Type.
Variable env : Imports World Err SyncManager.

(** ** State *)

(** [let initialized = false; let initializing = false;
     let managers: SyncManager[] = []] *)
Record Bootstrap : Type := {
  initialized : bool;
  initializing : bool;
  managers : list SyncManager
}.

Definition boot0 : Bootstrap :=
  {| initialized := false; initializing := false; managers := [] |}.

(** The module's variables, the outside world, and two ghost traces: what
    was logged and which collaborators were invoked. *)
Record Heap : Type := {
  boot : Bootstrap;
  world : World;
  log : list (LogEntry Err);
  calls : list Call
}.

Definition set_initialized (b : bool) (h : Heap) : Heap :=
  {| boot := {| initialized := b;
                initializing := initializing (boot h);
                managers := managers (boot h) |};
     world := world h; log := log h; calls := calls h |}.

Definition set_initializing (b : bool) (h : Heap) : Heap :=
  {| boot := {| initialized := initialized (boot h);
                initializing := b;
                managers := managers (boot h) |};
     world := world h; log := log h; calls := calls h |}.

Definition set_managers (m : list SyncManager) (h : Heap) : Heap :=
  {| boot := {| initialized := initialized (boot h);
                initializing := initializing (boot h);
                managers := m |};
     world := world h; log := log h; calls := calls h |}.

Definition set_world (w : World) (h : Heap) : Heap :=
  {| boot := boot h; world := w; log := log h; calls := calls h |}.

Definition record (c : Call) (h : Heap) : Heap :=
  {| boot := boot h; world := world h; log := log h;
     calls := calls h ++ [c] |}.

(** Modelled from the spec: the logger ([createLogger] of
    lib/logs/console-logger) is a sink for levelled messages on which no
    behaviour depends; a log call appends to the trace and returns. *)
Definition logger (l : LogEntry Err) (h : Heap) : Heap :=
  {| boot := boot h; world := world h; log := log h ++ [l];
     calls := calls h |}.

(** ** Expressions: synchronous calls *)

Definition Expr (A : Type) : Type := Heap -> Heap * Outcome Err A.

Definition call_isLocalStorageMode : Expr bool :=
  fun h => (record CIsLocalStorageMode h, isLocalStorageMode env (world h)).

Definition call_isRegistryInitialized : Expr bool :=
  fun h => (record CIsRegistryInitialized h,
            isRegistryInitialized env (world h)).

Definition call_resetRegistryInitialization : Expr unit :=
  fun h =>
    let (w, o) := resetRegistryInitialization env (world h) in
    (set_world w (record CResetRegistryInitialization h), o).

Definition call_fetchWorkflowsFromDB : Expr unit :=
  fun h =>
    (set_world (fetchWorkflowsFromDB env (world h))
       (record CFetchWorkflowsFromDB h), Ok tt).

(** [!e] *)
Definition not_ (e : Expr bool) : Expr bool :=
  fun h =>
    match e h with
    | (h', Ok b) => (h', Ok (negb b))
    | (h', Raise x) => (h', Raise x)
    end.

(** ** Statements of an async function

    Running a statement from a heap either completes, or suspends at an
    [await] with the rest of the function as a continuation.  The
    continuation takes how the awaited promise settled and the heap at
    the time of resumption, which other code may have changed. *)
Inductive Step : Type :=
| Done (h : Heap) (c : Completion Err)
| Suspend (h : Heap) (a : Awaited) (k : Outcome Err unit -> Heap -> Step).

Definition Stmt : Type := Heap -> Step.

Definition skip : Stmt := fun h => Done h Normal.

Definition ret (r : bool) : Stmt := fun h => Done h (Return r).

Definition assign (f : Heap -> Heap) : Stmt := fun h => Done (f h) Normal.

(** An expression statement: the value is dropped, a throw propagates. *)
Definition exec {A : Type} (e : Expr A) : Stmt :=
  fun h =>
    match e h with
    | (h', Ok _) => Done h' Normal
    | (h', Raise x) => Done h' (Throw x)
    end.

(** [await p]: suspend; on resumption a rejection is thrown. *)
Definition await (a : Awaited) : Stmt :=
  fun h =>
    Suspend h a
      (fun o h' =>
         match o with
         | Ok _ => Done h' Normal
         | Raise x => Done h' (Throw x)
         end).

(** [s1; s2] *)
Fixpoint then_ (m : Step) (s2 : Stmt) : Step :=
  match m with
  | Done h Normal => s2 h
  | Done h c => Done h c
  | Suspend h a k => Suspend h a (fun o h' => then_ (k o h') s2)
  end.

Definition seq (s1 s2 : Stmt) : Stmt := fun h => then_ (s1 h) s2.

(** [if (e) s1 else s2] *)
Definition ifte (e : Expr bool) (s1 s2 : Stmt) : Stmt :=
  fun h =>
    match e h with
    | (h', Ok true) => s1 h'
    | (h', Ok false) => s2 h'
    | (h', Raise x) => Done h' (Throw x)
    end.

(** [try { body } catch (error) { handler }] *)
Fixpoint catching (m : Step) (handler : Err -> Stmt) : Step :=
  match m with
  | Done h (Throw x) => handler x h
  | Done h c => Done h c
  | Suspend h a k => Suspend h a (fun o h' => catching (k o h') handler)
  end.

Definition try_catch (body : Stmt) (handler : Err -> Stmt) : Stmt :=
  fun h => catching (body h) handler.

(** [try { body } finally { fin }]: the finalizer runs on every
    completion of the body; when it falls through, the body's completion
    stands, otherwise the finalizer's own completion replaces it. *)
Fixpoint completing (c : Completion Err) (m : Step) : Step :=
  match m with
  | Done h Normal => Done h c
  | Done h c' => Done h c'
  | Suspend h a k => Suspend h a (fun o h' => completing c (k o h'))
  end.

Fixpoint finishing (m : Step) (fin : Stmt) : Step :=
  match m with
  | Done h c => completing c (fin h)
  | Suspend h a k => Suspend h a (fun o h' => finishing (k o h') fin)
  end.

Definition try_finally (body fin : Stmt) : Stmt :=
  fun h => finishing (body h) fin.

Declare Scope stmt_scope.
Delimit Scope stmt_scope with stmt.
Bind Scope stmt_scope with Stmt.
Notation "s1 ;; s2" := (seq s1 s2)
  (at level 61, right associativity) : stmt_scope.

(** ** The module's functions *)

(** Lines 29-80. *)
Definition initializeSyncManagers : Stmt :=
  fun h =>
  if initialized (boot h) || initializing (boot h)
  then ret (initialized (boot h)) h
  else
   (assign (set_initializing true) ;;
    try_finally
      (try_catch
         (ifte call_isLocalStorageMode
            (assign (set_managers [workflowSync env]) ;;
             assign (set_initialized true) ;;
             ret true)
            skip ;;
          assign (set_managers [workflowSync env]) ;;
          exec call_resetRegistryInitialization ;;
          try_catch
            (exec call_fetchWorkflowsFromDB ;;
             await AwaitFetch ;;
             ifte (not_ call_isRegistryInitialized)
               (assign (logger
                  (LInfo "Waiting for registry initialization to complete...")) ;;
                await (AwaitTimer 500))
               skip ;;
             ifte (not_ call_isRegistryInitialized)
               (assign (logger
                  (LWarn "Registry initialization may not have completed properly")))
               (assign (logger (LInfo "Registry initialization verified"))))
            (fun error =>
               assign (logger (LError "Error fetching data from DB:" error))) ;;
          assign (set_initialized true) ;;
          ret true)
         (fun error =>
            assign (logger (LError "Error initializing sync managers:" error)) ;;
            ret false))
      (assign (set_initializing false)))%stmt h.

(** Lines 85-87: [initialized && isRegistryInitialized()]; the right
    operand is evaluated only when the left one is true. *)
Definition isSyncInitialized : Expr bool :=
  fun h =>
    if initialized (boot h) then call_isRegistryInitialized h
    else (h, Ok false).

(** Lines 92-94. *)
Definition getSyncManagers : Expr (list SyncManager) :=
  fun h => (h, Ok (managers (boot h))).

(** Lines 99-104. *)
Definition resetSyncManagers : Expr unit :=
  fun h =>
    call_resetRegistryInitialization
      (set_managers [] (set_initializing false (set_initialized false h))).

(** ** Running one call to the end

    A script settles the awaited promises in order; with each settlement
    comes what the rest of the program did to the heap while the call was
    suspended.  A timer never rejects. *)
Definition settles (a : Awaited) (o : Outcome Err unit) : bool :=
  match a, o with
  | AwaitTimer _, Raise _ => false
  | _, _ => true
  end.

Definition Script : Type := list (Outcome Err unit * (Heap -> Heap)).

Fixpoint drive (script : Script) (m : Step)
  : option (Heap * Completion Err * list Awaited) :=
  match m with
  | Done h c => Some (h, c, [])
  | Suspend h a k =>
      match script with
      | [] => None
      | (o, f) :: script' =>
          if settles a o then
            match drive script' (k o (f h)) with
            | Some (h', c, w) => Some (h', c, a :: w)
            | None => None
            end
          else None
      end
  end.

(** ** The module in the event loop

    Calls to the exports and resumptions of suspended calls interleave;
    between two of them the outside world may change.  A configuration
    holds the heap and the suspended calls of [initializeSyncManagers]. *)
Record Task : Type := {
  waiting : Awaited;
  resume : Outcome Err unit -> Heap -> Step
}.

Record Config : Type := {
  heap : Heap;
  pool : list Task
}.

Inductive Action : Type :=
| CallInitialize
| Settle (i : nat) (o : Outcome Err unit)
| CallReset
| CallIsSyncInitialized
| CallGetSyncManagers
| Outside (f : World -> World).

Definition is_reset (a : Action) : bool :=
  match a with
  | CallReset => true
  | _ => false
  end.

Fixpoint drop_nth {A : Type} (i : nat) (l : list A) : list A :=
  match l, i with
  | [], _ => []
  | _ :: l', O => l'
  | x :: l', S i' => x :: drop_nth i' l'
  end.

(** Where a segment of a call leaves the configuration. *)
Definition settle_in (m : Step) (others : list Task) : Config :=
  match m with
  | Done h _ => {| heap := h; pool := others |}
  | Suspend h a k =>
      {| heap := h; pool := others ++ [{| waiting := a; resume := k |}] |}
  end.

Definition act (a : Action) (c : Config) : option Config :=
  match a with
  | CallInitialize =>
      Some (settle_in (initializeSyncManagers (heap c)) (pool c))
  | Settle i o =>
      match nth_error (pool c) i with
      | Some t =>
          if settles (waiting t) o
          then Some (settle_in (resume t o (heap c)) (drop_nth i (pool c)))
          else None
      | None => None
      end
  | CallReset =>
      Some {| heap := fst (resetSyncManagers (heap c)); pool := pool c |}
  | CallIsSyncInitialized =>
      Some {| heap := fst (isSyncInitialized (heap c)); pool := pool c |}
  | CallGetSyncManagers =>
      Some {| heap := fst (getSyncManagers (heap c)); pool := pool c |}
  | Outside f =>
      Some {| heap := set_world (f (world (heap c))) (heap c);
              pool := pool c |}
  end.

Fixpoint run (l : list Action) (c : Config) : option Config :=
  match l with
  | [] => Some c
  | a :: l' =>
      match act a c with
      | Some c' => run l' c'
      | None => None
      end
  end.

(** Module load: the three variables at their initial values, nothing
    logged, nothing called, no call in flight. *)
Definition loaded (w : World) : Config :=
  {| heap := {| boot := boot0; world := w; log := []; calls := [] |};
     pool := [] |}.

(** ** Summaries of the segments of a call

    [Resumed n h m]: [m] is what a continuation of the call does when it
    is resumed in heap [h], with at most [n] more suspensions to come.  It
    either finishes, returning [true] with [initialized] set and
    [initializing] cleared, or waits once more, on the 500 ms timer,
    leaving the module's variables as it found them.  The only
    collaborator it invokes is [isRegistryInitialized]. *)
Inductive Resumed : nat -> Heap -> Step -> Prop :=
| Resumed_done n h hf l :
    boot hf = {| initialized := true; initializing := false;
                 managers := managers (boot h) |} ->
    world hf = world h ->
    calls hf = calls h ++ l ->
    Forall (eq CIsRegistryInitialized) l ->
    Resumed n h (Done hf (Return true))
| Resumed_wait n h hs k :
    boot hs = boot h ->
    world hs = world h ->
    calls hs = calls h ++ [CIsRegistryInitialized] ->
    (forall o h', Resumed n h' (k o h')) ->
    Resumed (S n) h (Suspend hs (AwaitTimer 500) k).

(** [Started h m]: [m] is what the first segment of a call does when it
    passes the guard in heap [h]; one case per way out of lines 35-54. *)
Inductive Started (h : Heap) : Step -> Prop :=
| Started_local hf :
    isLocalStorageMode env (world h) = Ok true ->
    boot hf = {| initialized := true; initializing := false;
                 managers := [workflowSync env] |} ->
    world hf = world h ->
    calls hf = calls h ++ [CIsLocalStorageMode] ->
    log hf = log h ->
    Started h (Done hf (Return true))
| Started_mode_threw e hf :
    isLocalStorageMode env (world h) = Raise e ->
    boot hf = {| initialized := false; initializing := false;
                 managers := managers (boot h) |} ->
    world hf = world h ->
    calls hf = calls h ++ [CIsLocalStorageMode] ->
    log hf = log h ++ [LError "Error initializing sync managers:" e] ->
    Started h (Done hf (Return false))
| Started_reset_threw e w1 hf :
    isLocalStorageMode env (world h) = Ok false ->
    resetRegistryInitialization env (world h) = (w1, Raise e) ->
    boot hf = {| initialized := false; initializing := false;
                 managers := [workflowSync env] |} ->
    world hf = w1 ->
    calls hf = calls h ++ [CIsLocalStorageMode; CResetRegistryInitialization] ->
    log hf = log h ++ [LError "Error initializing sync managers:" e] ->
    Started h (Done hf (Return false))
| Started_fetching u w1 hs k :
    isLocalStorageMode env (world h) = Ok false ->
    resetRegistryInitialization env (world h) = (w1, Ok u) ->
    boot hs = {| initialized := false; initializing := true;
                 managers := [workflowSync env] |} ->
    world hs = fetchWorkflowsFromDB env w1 ->
    calls hs = calls h ++ [CIsLocalStorageMode; CResetRegistryInitialization;
                           CFetchWorkflowsFromDB] ->
    log hs = log h ->
    (forall o h', Resumed 1 h' (k o h')) ->
    Started h (Suspend hs AwaitFetch k).

(** The event-loop invariant: the two flags are never both set, no call
    in flight means [initializing] is clear, and every suspended call
    behaves as [Resumed] says. *)
Definition Inv (c : Config) : Prop :=
  initialized (boot (heap c)) && initializing (boot (heap c)) = false /\
  (pool c = [] -> initializing (boot (heap c)) = false) /\
  Forall (fun t => forall o h', Resumed 1 h' (resume t o h')) (pool c).

(** As long as [resetSyncManagers] is not called, [initializing] is set
    exactly while one call is suspended, and no second call is. *)
Definition Single (c : Config) : Prop :=
  match pool c with
  | [] => initializing (boot (heap c)) = false
  | [_] => initializing (boot (heap c)) = true /\
           initialized (boot (heap c)) = false
  | _ => False
  end.

Definition no_reset (l : list Action) : bool :=
  forallb (fun a => negb (is_reset a)) l.

(** What happens between the segments of one call leaves the record of
    collaborator invocations alone. *)
Definition keeps_calls (script : Script) : Prop :=
  Forall (fun sf => forall h, calls (snd sf h) = calls h) script.

End SyncRegistry.

Arguments Done {World Err SyncManager} h c.
Arguments Suspend {World Err SyncManager} h a k.
Arguments boot0 {SyncManager}.
Arguments CallInitialize {World Err}.
Arguments Settle {World Err} i o.
Arguments CallReset {World Err}.
Arguments CallIsSyncInitialized {World Err}.
Arguments CallGetSyncManagers {World Err}.
Arguments Outside {World Err} f.
Arguments loaded {World Err SyncManager} w.

(** ** A concrete world

    A storage-mode flag that can be unreadable, a registry readiness bit,
    and a registry whose reset can fail. *)
Module Demo.

Record registry : Type := {
  mode : Outcome string bool;
  ready : bool;
  reset_fails : bool
}.

Definition env : Imports registry string string :=
  {| isLocalStorageMode := mode;
     fetchWorkflowsFromDB := fun w => w;
     isRegistryInitialized := fun w => Ok (ready w);
     resetRegistryInitialization := fun w =>
       ({| mode := mode w; ready := false; reset_fails := reset_fails w |},
        if reset_fails w then Raise "reset failed" else Ok tt);
     workflowSync := "workflowSync" |}.

Definition remote : registry :=
  {| mode := Ok false; ready := true; reset_fails := false |}.

Definition local : registry :=
  {| mode := Ok true; ready := true; reset_fails := false |}.

Definition unreadable : registry :=
  {| mode := Raise "storage denied"; ready := false; reset_fails := false |}.

Definition broken : registry :=
  {| mode := Ok false; ready := true; reset_fails := true |}.

Definition fresh (w : registry) : Heap registry string string :=
  {| boot := boot0; world := w; log := []; calls := [] |}.

(** A heap in which a call is suspended, and one in which a call has
    completed. *)
Definition in_flight (w : registry) : Heap registry string string :=
  {| boot := {| initialized := false; initializing := true;
                managers := ["workflowSync"] |};
     world := w; log := []; calls := [] |}.

Definition completed (w : registry) : Heap registry string string :=
  {| boot := {| initialized := true; initializing := false;
                managers := ["workflowSync"] |};
     world := w; log := []; calls := [] |}.

(** The registry becomes ready while a call is suspended. *)
Definition becomes_ready (h : Heap registry string string)
  : Heap registry string string :=
  set_world {| mode := mode (world h); ready := true;
               reset_fails := reset_fails (world h) |} h.

End Demo.

(** * Properties *)

Section Properties.

Variables World Err SyncManager : Type.
Variable env : Imports World Err SyncManager.

Ltac run_body :=
  unfold initializeSyncManagers, seq, try_finally, try_catch, ifte, exec,
    assign, ret, skip, await, not_, call_isLocalStorageMode,
    call_isRegistryInitialized, call_resetRegistryInitialization,
    call_fetchWorkflowsFromDB; simpl.

Ltac pass_guard Hi Hg := run_body; rewrite Hi, Hg; simpl.

(** ** The segments of a call *)

Ltac finished checks :=
  refine (@Resumed_done _ _ _ _ _ _ checks _ _ _ _); simpl;
  auto using app_nil_r.

(** A call that passes the guard starts as [Started] says. *)
Lemma init_started (h : Heap World Err SyncManager) :
  initialized (boot h) = false ->
  initializing (boot h) = false ->
  Started env h (initializeSyncManagers env h).
Proof.
  intros Hi Hg. pass_guard Hi Hg.
  destruct (isLocalStorageMode env (world h)) as [[|]|e] eqn:Hmode; simpl.
  - apply Started_local; simpl; auto.
  - destruct (resetRegistryInitialization env (world h)) as [w1 [u|e]]
      eqn:Hreset; simpl.
    + apply Started_fetching with (u := u) (w1 := w1); simpl; auto.
      * rewrite Hi. reflexivity.
      * rewrite <- !app_assoc. reflexivity.
      * intros [u'|e] h'; simpl.
        -- destruct (isRegistryInitialized env (world h')) as [[|]|e]
             eqn:Hready; simpl; rewrite ?Hready; simpl.
           ++ finished [CIsRegistryInitialized; CIsRegistryInitialized].
              rewrite <- app_assoc. reflexivity.
           ++ apply Resumed_wait; simpl; auto.
              intros [u''|e] h''; simpl.
              ** destruct (isRegistryInitialized env (world h'')) as [[|]|e];
                   simpl; finished [CIsRegistryInitialized].
              ** finished (@nil Call).
           ++ finished [CIsRegistryInitialized].
        -- finished (@nil Call).
    + apply Started_reset_threw with (e := e) (w1 := w1); simpl; auto.
      * rewrite Hi. reflexivity.
      * rewrite <- app_assoc. reflexivity.
  - apply Started_mode_threw with (e := e); simpl; auto.
    rewrite Hi. reflexivity.
Qed.

(** ** The guard *)

(** C1: when [initialized] or [initializing] is set, a call returns the
    value of [initialized] at once and leaves the whole heap as it was:
    the module's variables, the world, the log and the record of
    collaborator calls.  In particular a call that arrives in the
    variables left by a suspended call returns [false], and a call that
    finds [initialized] set and [initializing] clear returns [true]. *)
Theorem guard_returns_initialized (h : Heap World Err SyncManager) :
  (initialized (boot h) || initializing (boot h) = true ->
   initializeSyncManagers env h = Done h (Return (initialized (boot h)))) /\
  (forall h0 a k,
     initializeSyncManagers env h0 = Suspend h a k ->
     forall h', boot h' = boot h ->
     initializeSyncManagers env h' = Done h' (Return false)) /\
  (initialized (boot h) = true -> initializing (boot h) = false ->
   initializeSyncManagers env h = Done h (Return true)).
Proof.
  assert (Hguard : forall x : Heap World Err SyncManager,
             initialized (boot x) || initializing (boot x) = true ->
             initializeSyncManagers env x
             = Done x (Return (initialized (boot x)))).
  { intros x Hx. unfold initializeSyncManagers. rewrite Hx. reflexivity. }
  split; [apply Hguard | split].
  - intros h0 a k Hsusp h' Hboot.
    destruct (initialized (boot h0) || initializing (boot h0)) eqn:Hg0.
    + rewrite (Hguard h0 Hg0) in Hsusp. discriminate.
    + apply orb_false_elim in Hg0. destruct Hg0 as [Hi Hg].
      pose proof (init_started h0 Hi Hg) as Hst.
      rewrite Hsusp in Hst. inversion Hst; subst.
      rewrite (Hguard h').
      * rewrite Hboot.
        match goal with H : boot h = _ |- _ => rewrite H end. reflexivity.
      * rewrite Hboot.
        match goal with H : boot h = _ |- _ => rewrite H end. reflexivity.
  - intros Hi Hg.
    rewrite (Hguard h); [rewrite Hi; reflexivity|].
    rewrite Hi. reflexivity.
Qed.

(** ** The synchronous exports *)

(** C6: [isSyncInitialized()] returns [initialized && b] where [b] is what
    [isRegistryInitialized()] returns, and it leaves [initialized],
    [initializing], [managers] and the world as they were. *)
Theorem isSyncInitialized_is_conjunction (h : Heap World Err SyncManager) :
  (forall b, isRegistryInitialized env (world h) = Ok b ->
     snd (isSyncInitialized env h) = Ok (initialized (boot h) && b)) /\
  boot (fst (isSyncInitialized env h)) = boot h /\
  world (fst (isSyncInitialized env h)) = world h /\
  log (fst (isSyncInitialized env h)) = log h.
Proof.
  unfold isSyncInitialized, call_isRegistryInitialized.
  destruct (initialized (boot h)); simpl; repeat split; auto.
Qed.

(** C7: [resetSyncManagers()] clears both flags, empties [managers] and
    invokes [resetRegistryInitialization()] once; right after it
    [getSyncManagers()] returns the empty list and [isSyncInitialized()]
    returns [false]. *)
Theorem resetSyncManagers_clears (h : Heap World Err SyncManager) :
  let h' := fst (resetSyncManagers env h) in
  initialized (boot h') = false /\
  initializing (boot h') = false /\
  managers (boot h') = [] /\
  calls h' = calls h ++ [CResetRegistryInitialization] /\
  world h' = fst (resetRegistryInitialization env (world h)) /\
  getSyncManagers h' = (h', Ok []) /\
  isSyncInitialized env h' = (h', Ok false).
Proof.
  unfold resetSyncManagers, call_resetRegistryInitialization,
    getSyncManagers, isSyncInitialized; simpl.
  destruct (resetRegistryInitialization env (world h)) as [w1 o]; simpl.
  repeat split.
Qed.

(** ** Whole calls *)

Lemma invoked_app c l1 l2 :
  invoked c (l1 ++ l2) = invoked c l1 || invoked c l2.
Proof. apply existsb_app. Qed.

Lemma invoked_checks c l :
  Forall (eq CIsRegistryInitialized) l ->
  c <> CIsRegistryInitialized ->
  invoked c l = false.
Proof.
  intros Hl Hc. induction Hl as [|x l Hx _ IH]; simpl; [reflexivity|].
  subst x. rewrite IH. destruct c; simpl; congruence.
Qed.

Lemma drive_done script (h : Heap World Err SyncManager) c :
  drive script (Done h c) = Some (h, c, []).
Proof. destruct script; reflexivity. Qed.

Lemma drive_fetch o f script (h : Heap World Err SyncManager) k :
  drive ((o, f) :: script) (Suspend h AwaitFetch k) =
  match drive script (k o (f h)) with
  | Some (h', c, w) => Some (h', c, AwaitFetch :: w)
  | None => None
  end.
Proof. reflexivity. Qed.

(** However a resumed call is scheduled, it returns [true], with
    [initialized] set and [initializing] clear. *)
Lemma drive_resumed n (h : Heap World Err SyncManager) m :
  Resumed n h m ->
  forall script hf c w,
    drive script m = Some (hf, c, w) ->
    c = Return true /\
    initialized (boot hf) = true /\ initializing (boot hf) = false.
Proof.
  induction 1 as [n h hf0 l Hboot _ _ _ | n h hs k _ _ _ _ IH];
    intros script hf c w Hrun.
  - rewrite drive_done in Hrun. injection Hrun as <- <- _.
    rewrite Hboot. auto.
  - destruct script as [|[o f] script']; simpl in Hrun; [discriminate|].
    destruct o as [u|e]; simpl in Hrun; [|discriminate].
    destruct (drive script' (k (Ok u) (f hs))) as [[[hf1 c1] w1]|] eqn:Hrest;
      [|discriminate].
    inversion Hrun; subst. eapply IH; eassumption.
Qed.

(** A resumed call invokes no collaborator but the registry predicate. *)
Lemma drive_resumed_calls n (h : Heap World Err SyncManager) m :
  Resumed n h m ->
  forall script hf c w,
    keeps_calls script ->
    drive script m = Some (hf, c, w) ->
    exists l, calls hf = calls h ++ l /\
              Forall (eq CIsRegistryInitialized) l.
Proof.
  induction 1 as [n h hf0 l _ _ Hcalls Hl | n h hs k _ _ Hcalls _ IH];
    intros script hf c w Hkeep Hrun.
  - rewrite drive_done in Hrun. injection Hrun as <- _ _. eauto.
  - destruct script as [|[o f] script']; simpl in Hrun; [discriminate|].
    destruct o as [u|e]; simpl in Hrun; [|discriminate].
    destruct (drive script' (k (Ok u) (f hs))) as [[[hf1 c1] w1]|] eqn:Hrest;
      [|discriminate].
    inversion Hrun; subst. inversion Hkeep as [|? ? Hf Hkeep']; subst.
    destruct (IH _ _ _ _ _ _ Hkeep' Hrest) as [l [Hl1 Hl2]].
    exists (CIsRegistryInitialized :: l). split; [|auto].
    rewrite Hl1. simpl in Hf. rewrite Hf, Hcalls, <- app_assoc. reflexivity.
Qed.

(** With the fetch settled and the timer fired, a call runs to its end. *)
Lemma drive_resumed_total (h : Heap World Err SyncManager) m f rest :
  Resumed 1 h m ->
  exists hf r w, drive ((Ok tt, f) :: rest) m = Some (hf, Return r, w).
Proof.
  intros Hm. inversion Hm as [? ? hf l ? ? ? ? | ? ? hs k ? ? ? Hk]; subst.
  - rewrite drive_done. eauto.
  - simpl. specialize (Hk (Ok tt) (f hs)).
    inversion Hk; subst. rewrite drive_done. eauto.
Qed.

Ltac started Hi Hg :=
  let m := fresh "m" in
  let Hm := fresh "Hm" in
  let Hst := fresh "Hst" in
  pose proof (init_started _ Hi Hg) as Hst;
  remember (initializeSyncManagers env _) as m eqn:Hm in *;
  destruct Hst as
    [ hf' Hmode' Hboot' Hworld' Hcalls' Hlog'
    | e' hf' Hmode' Hboot' Hworld' Hcalls' Hlog'
    | e' w' hf' Hmode' Hreset' Hboot' Hworld' Hcalls' Hlog'
    | u' w' hs k Hmode' Hreset' Hboot' Hworld' Hcalls' Hlog' Hk ];
  try congruence.

(** C5: in local-storage mode a call that passes the guard sets
    [managers] to the one workflow-sync handle, sets [initialized],
    returns [true], and has invoked nothing but [isLocalStorageMode];
    [getSyncManagers()] then returns that one handle. *)
Theorem local_mode_initializes (h : Heap World Err SyncManager) :
  initialized (boot h) = false ->
  initializing (boot h) = false ->
  isLocalStorageMode env (world h) = Ok true ->
  exists hf,
    initializeSyncManagers env h = Done hf (Return true) /\
    managers (boot hf) = [workflowSync env] /\
    initialized (boot hf) = true /\
    initializing (boot hf) = false /\
    calls hf = calls h ++ [CIsLocalStorageMode] /\
    invoked CFetchWorkflowsFromDB (calls hf)
    = invoked CFetchWorkflowsFromDB (calls h) /\
    getSyncManagers hf = (hf, Ok [workflowSync env]).
Proof.
  intros Hi Hg Hmode. started Hi Hg.
  exists hf'. unfold getSyncManagers.
  rewrite Hboot', Hcalls', invoked_app. simpl. rewrite orb_false_r. repeat split.
Qed.

(** C10: in local-storage mode the call invokes [isLocalStorageMode] and
    nothing else, so the world, and with it the registry's readiness, is
    as before; whenever a call has invoked
    [resetRegistryInitialization], [isLocalStorageMode] had returned
    [false]. *)
Theorem reset_only_on_remote_path
    (h : Heap World Err SyncManager) script hf c w :
  keeps_calls script ->
  drive script (initializeSyncManagers env h) = Some (hf, c, w) ->
  exists l,
    calls hf = calls h ++ l /\
    (invoked CResetRegistryInitialization l = true ->
     isLocalStorageMode env (world h) = Ok false) /\
    (initialized (boot h) = false -> initializing (boot h) = false ->
     isLocalStorageMode env (world h) = Ok true ->
     l = [CIsLocalStorageMode] /\ world hf = world h /\
     isRegistryInitialized env (world hf)
     = isRegistryInitialized env (world h)).
Proof.
  intros Hkeep Hrun.
  destruct (initialized (boot h) || initializing (boot h)) eqn:Hguard.
  - unfold initializeSyncManagers in Hrun. rewrite Hguard in Hrun.
    unfold ret in Hrun. rewrite drive_done in Hrun.
    injection Hrun as <- _ _. exists []. rewrite app_nil_r.
    apply orb_true_elim in Hguard.
    repeat split; simpl; try congruence.
    all: destruct Hguard; congruence.
  - apply orb_false_elim in Hguard. destruct Hguard as [Hi Hg].
    started Hi Hg.
    + rewrite drive_done in Hrun. injection Hrun as <- _ _.
      exists [CIsLocalStorageMode].
      repeat split; simpl; congruence.
    + rewrite drive_done in Hrun. injection Hrun as <- _ _.
      exists [CIsLocalStorageMode].
      repeat split; simpl; congruence.
    + rewrite drive_done in Hrun. injection Hrun as <- _ _.
      exists [CIsLocalStorageMode; CResetRegistryInitialization].
      repeat split; simpl; congruence.
    + destruct script as [|[o f] script']; simpl in Hrun; [discriminate|].
      destruct (drive script' (k o (f hs))) as [[[hf1 c1] w2]|] eqn:Hrest;
        [|discriminate].
      injection Hrun as <- _ _.
      inversion Hkeep as [|? ? Hf Hkeep']; subst.
      destruct (drive_resumed_calls (Hk o (f hs)) Hkeep' Hrest)
        as [l [Hl1 Hl2]].
      exists ([CIsLocalStorageMode; CResetRegistryInitialization;
               CFetchWorkflowsFromDB] ++ l).
      repeat split; try congruence.
      rewrite Hl1. simpl in Hf.
      rewrite Hf, Hcalls', <- app_assoc. reflexivity.
Qed.

(** C9: when a call on the non-local path returns [false], what it did
    before failing stands: [managers] holds the workflow-sync handle,
    [resetRegistryInitialization] has been invoked (it is what threw) and
    its effect on the world is kept, while [initialized] is still
    [false]. *)
Theorem outer_failure_keeps_partial_state
    (h : Heap World Err SyncManager) script hf w :
  initialized (boot h) = false ->
  initializing (boot h) = false ->
  isLocalStorageMode env (world h) = Ok false ->
  drive script (initializeSyncManagers env h) = Some (hf, Return false, w) ->
  managers (boot hf) = [workflowSync env] /\
  getSyncManagers hf = (hf, Ok [workflowSync env]) /\
  initialized (boot hf) = false /\
  initializing (boot hf) = false /\
  calls hf = calls h ++ [CIsLocalStorageMode; CResetRegistryInitialization] /\
  world hf = fst (resetRegistryInitialization env (world h)) /\
  w = [] /\
  exists e, snd (resetRegistryInitialization env (world h)) = Raise e /\
            log hf = log h ++ [LError "Error initializing sync managers:" e].
Proof.
  intros Hi Hg Hmode Hrun. started Hi Hg.
  - rewrite drive_done in Hrun. injection Hrun as <- <-.
    unfold getSyncManagers. rewrite Hboot', Hreset'.
    simpl. repeat split; auto. exists e'. auto.
  - destruct script as [|[o f] script']; simpl in Hrun; [discriminate|].
    destruct (drive script' (k o (f hs))) as [[[hf1 c1] w2]|] eqn:Hrest;
      [|discriminate].
    injection Hrun as <- -> <-.
    destruct (drive_resumed (Hk o (f hs)) _ Hrest) as [Hc _].
    discriminate.
Qed.

(** C4: a call never completes by throwing.  However it is scheduled,
    it completes with a [return], and when it passed the guard
    [initializing] is clear at that point; once the fetch has settled and
    the timer has fired it does complete.  An error of
    [isLocalStorageMode] or of [resetRegistryInitialization] is logged by
    the outer handler and turned into [false]. *)
Theorem init_never_throws (h : Heap World Err SyncManager) :
  (forall script hf c w,
     drive script (initializeSyncManagers env h) = Some (hf, c, w) ->
     (exists r, c = Return r) /\
     (initialized (boot h) || initializing (boot h) = false ->
      initializing (boot hf) = false)) /\
  (forall o f f' rest, exists hf r w,
     drive ((o, f) :: (Ok tt, f') :: rest) (initializeSyncManagers env h)
     = Some (hf, Return r, w)) /\
  (initialized (boot h) || initializing (boot h) = false ->
   forall e,
     isLocalStorageMode env (world h) = Raise e \/
     (isLocalStorageMode env (world h) = Ok false /\
      snd (resetRegistryInitialization env (world h)) = Raise e) ->
     exists hf,
       initializeSyncManagers env h = Done hf (Return false) /\
       initializing (boot hf) = false /\
       log hf = log h ++ [LError "Error initializing sync managers:" e]).
Proof.
  assert (Hdone : forall script (h0 hf : Heap World Err SyncManager) r c w,
             drive script (Done h0 (Return r)) = Some (hf, c, w) ->
             (exists r', c = Return r') /\ hf = h0).
  { intros script h0 hf r c w Hrun. rewrite drive_done in Hrun.
    injection Hrun as <- <- _. eauto. }
  destruct (initialized (boot h) || initializing (boot h)) eqn:Hguard.
  - assert (Hinit : initializeSyncManagers env h
                    = Done h (Return (initialized (boot h)))).
    { unfold initializeSyncManagers. rewrite Hguard. reflexivity. }
    rewrite Hinit. split; [|split].
    + intros script hf c w Hrun. apply Hdone in Hrun.
      split; [tauto|discriminate].
    + intros o f f' rest. simpl. eauto.
    + discriminate.
  - apply orb_false_elim in Hguard. destruct Hguard as [Hi Hg].
    started Hi Hg.
    + (* local-storage mode *)
      split; [|split].
      * intros script hf c w Hrun. apply Hdone in Hrun.
        destruct Hrun as [Hc ->]. rewrite Hboot'. auto.
      * intros o f f' rest. simpl. eauto.
      * intros _ e [He|[He _]]; congruence.
    + (* isLocalStorageMode threw *)
      split; [|split].
      * intros script hf c w Hrun. apply Hdone in Hrun.
        destruct Hrun as [Hc ->]. rewrite Hboot'. auto.
      * intros o f f' rest. simpl. eauto.
      * intros _ e [He|[He _]]; [|congruence].
        exists hf'. rewrite Hboot'. repeat split. congruence.
    + (* resetRegistryInitialization threw *)
      split; [|split].
      * intros script hf c w Hrun. apply Hdone in Hrun.
        destruct Hrun as [Hc ->]. rewrite Hboot'. auto.
      * intros o f f' rest. simpl. eauto.
      * intros _ e [He|[_ He]]; [congruence|].
        rewrite Hreset' in He. simpl in He.
        exists hf'. rewrite Hboot'. repeat split. congruence.
    + (* suspended at the fetch *)
      split; [|split].
      * intros script hf c w Hrun.
        destruct script as [|[o f] script']; [discriminate|].
        rewrite drive_fetch in Hrun.
        destruct (drive script' (k o (f hs))) as [[[hf1 c1] w2]|] eqn:Hrest;
          [|discriminate].
        injection Hrun as <- <- _.
        destruct (drive_resumed (Hk o (f hs)) _ Hrest) as [-> [_ Hing]].
        eauto.
      * intros o f f' rest. rewrite drive_fetch.
        destruct (drive_resumed_total f' rest (Hk o (f hs)))
          as [hf [r [w Hd]]].
        rewrite Hd. eauto.
      * intros _ e [He|[_ He]]; [congruence|].
        rewrite Hreset' in He. discriminate.
Qed.

(** ** The fetch and the registry check *)

Ltac to_fetch Hi Hg Hmode Hreset :=
  pass_guard Hi Hg; rewrite Hmode; simpl; rewrite Hreset; simpl;
  eexists; eexists; split; [reflexivity|].

(** C2: on the non-local path a rejected fetch is logged and swallowed:
    the call sets [initialized], clears [initializing] and returns
    [true]; from then on [isSyncInitialized()] returns whatever
    [isRegistryInitialized()] returns. *)
Theorem fetch_error_is_swallowed (h : Heap World Err SyncManager) u w1 :
  initialized (boot h) = false ->
  initializing (boot h) = false ->
  isLocalStorageMode env (world h) = Ok false ->
  resetRegistryInitialization env (world h) = (w1, Ok u) ->
  exists hs k,
    initializeSyncManagers env h = Suspend hs AwaitFetch k /\
    invoked CFetchWorkflowsFromDB (calls hs) = true /\
    forall e h', exists hf,
      k (Raise e) h' = Done hf (Return true) /\
      initialized (boot hf) = true /\
      initializing (boot hf) = false /\
      log hf = log h' ++ [LError "Error fetching data from DB:" e] /\
      forall h'', boot h'' = boot hf ->
        snd (isSyncInitialized env h'')
        = isRegistryInitialized env (world h'').
Proof.
  intros Hi Hg Hmode Hreset. to_fetch Hi Hg Hmode Hreset.
  split.
  - simpl. rewrite !invoked_app. simpl. apply orb_true_r.
  - intros e h'. eexists. split; [reflexivity|]. simpl.
    repeat split.
    intros h'' Hboot. unfold isSyncInitialized. rewrite Hboot. reflexivity.
Qed.

(** C3, as the code has it: the registry check follows a fetch that
    resolved.  When the predicate then holds the call finishes without
    waiting; when it does not, the call waits once on a 500 ms timer,
    checks again for the log only, and returns [true] whatever the second
    check says.  When the fetch was rejected there is neither a check nor
    a wait, and the call returns [true]. *)
Theorem registry_checked_after_resolved_fetch
    (h : Heap World Err SyncManager) u w1 :
  initialized (boot h) = false ->
  initializing (boot h) = false ->
  isLocalStorageMode env (world h) = Ok false ->
  resetRegistryInitialization env (world h) = (w1, Ok u) ->
  exists hs k,
    initializeSyncManagers env h = Suspend hs AwaitFetch k /\
    (forall v h', isRegistryInitialized env (world h') = Ok true ->
       exists hf,
         k (Ok v) h' = Done hf (Return true) /\
         initialized (boot hf) = true /\
         log hf = log h' ++ [LInfo "Registry initialization verified"]) /\
    (forall v h', isRegistryInitialized env (world h') = Ok false ->
       exists hw k',
         k (Ok v) h' = Suspend hw (AwaitTimer 500) k' /\
         boot hw = boot h' /\
         calls hw = calls h' ++ [CIsRegistryInitialized] /\
         log hw = log h' ++
           [LInfo "Waiting for registry initialization to complete..."] /\
         forall v' h'', exists hf,
           k' (Ok v') h'' = Done hf (Return true) /\
           initialized (boot hf) = true /\
           calls hf = calls h'' ++ [CIsRegistryInitialized] /\
           (forall b, isRegistryInitialized env (world h'') = Ok b ->
              log hf = log h'' ++
                [if b then LInfo "Registry initialization verified"
                 else LWarn
                   "Registry initialization may not have completed properly"])) /\
    (forall e h', exists hf,
       k (Raise e) h' = Done hf (Return true) /\
       initialized (boot hf) = true /\
       calls hf = calls h').
Proof.
  intros Hi Hg Hmode Hreset. to_fetch Hi Hg Hmode Hreset.
  split; [|split].
  - intros v h' Hready. simpl. rewrite Hready. simpl. rewrite Hready. simpl.
    eexists. split; [reflexivity|]. simpl. auto.
  - intros v h' Hready. simpl. rewrite Hready. simpl.
    eexists. eexists. split; [reflexivity|]. simpl.
    repeat split.
    intros v' h''. simpl.
    destruct (isRegistryInitialized env (world h'')) as [[|]|e]; simpl;
      eexists; (split; [reflexivity|]); simpl; repeat split;
      intros b Hb; inversion Hb; reflexivity.
  - intros e h'. simpl. eexists. split; [reflexivity|]. simpl. auto.
Qed.

(** ** The module in the event loop *)

Lemma Resumed_later n (h : Heap World Err SyncManager) m :
  Resumed n h m -> Resumed (S n) h m.
Proof.
  induction 1 as [n h hf l Hb Hw Hc Hl | n h hs k Hb Hw Hc _ IH].
  - eapply Resumed_done; eassumption.
  - apply Resumed_wait; assumption.
Qed.

Lemma Forall_drop_nth {A : Type} (P : A -> Prop) i (l : list A) :
  Forall P l -> Forall P (drop_nth i l).
Proof.
  intros Hl. revert i.
  induction Hl as [|x l Hx Hl IH]; intros [|i]; simpl; auto.
Qed.

(** A resumed segment keeps the invariant. *)
Lemma settle_in_resumed (h : Heap World Err SyncManager) m others :
  Resumed 1 h m ->
  initialized (boot h) && initializing (boot h) = false ->
  Forall (fun t : Task World Err SyncManager =>
            forall o h', Resumed 1 h' (resume t o h')) others ->
  Inv (settle_in m others).
Proof.
  intros Hm Hflags Hothers.
  inversion Hm as [? ? hf l Hb _ _ _ | ? ? hs k Hb _ _ Hk]; subst; simpl.
  - unfold Inv; simpl. rewrite Hb; simpl. auto.
  - unfold Inv; simpl. rewrite Hb. split; [assumption|]. split.
    + intros Hnil. destruct others; discriminate.
    + apply Forall_app. split; [assumption|].
      constructor; [|constructor]. simpl.
      intros o h'. apply Resumed_later. apply Hk.
Qed.

(** The first segment of a call keeps the invariant. *)
Lemma settle_in_init (c : Config World Err SyncManager) :
  Inv c ->
  Inv (settle_in (initializeSyncManagers env (heap c)) (pool c)).
Proof.
  intros [Hflags [Hidle Hpool]].
  destruct (initialized (boot (heap c)) || initializing (boot (heap c)))
    eqn:Hguard.
  - unfold initializeSyncManagers. rewrite Hguard. simpl.
    unfold Inv; simpl. auto.
  - apply orb_false_elim in Hguard. destruct Hguard as [Hi Hg].
    started Hi Hg; unfold Inv; simpl; rewrite Hboot'; simpl;
      try (repeat split; auto; fail).
    split; [reflexivity|]. split.
    + intros Hnil. destruct (pool c); discriminate.
    + apply Forall_app. split; [assumption|].
      constructor; [|constructor]. exact Hk.
Qed.

Lemma isSyncInitialized_boot (h : Heap World Err SyncManager) :
  boot (fst (isSyncInitialized env h)) = boot h.
Proof.
  unfold isSyncInitialized. destruct (initialized (boot h)); reflexivity.
Qed.

Lemma resetSyncManagers_boot (h : Heap World Err SyncManager) :
  boot (fst (resetSyncManagers env h)) = boot0.
Proof.
  unfold resetSyncManagers, call_resetRegistryInitialization. simpl.
  destruct (resetRegistryInitialization env (world h)); reflexivity.
Qed.

Lemma act_Inv a (c c' : Config World Err SyncManager) :
  Inv c -> act env a c = Some c' -> Inv c'.
Proof.
  intros HI Hact. pose proof HI as [Hflags [Hidle Hpool]].
  destruct a as [|i o| | | |f]; simpl in Hact.
  - injection Hact as <-. apply settle_in_init. assumption.
  - destruct (nth_error (pool c) i) as [t|] eqn:Hnth; [|discriminate].
    destruct (settles (waiting t) o); [|discriminate].
    injection Hact as <-.
    apply settle_in_resumed with (h := heap c); auto using Forall_drop_nth.
    rewrite Forall_forall in Hpool.
    apply Hpool. eapply nth_error_In. eassumption.
  - injection Hact as <-. unfold Inv; simpl.
    rewrite resetSyncManagers_boot. simpl. auto.
  - injection Hact as <-. unfold Inv; simpl.
    rewrite isSyncInitialized_boot. auto.
  - injection Hact as <-. unfold Inv; simpl. auto.
  - injection Hact as <-. unfold Inv; simpl. auto.
Qed.

Lemma loaded_Inv (w : World) : Inv (loaded (Err := Err) (SyncManager := SyncManager) w).
Proof. unfold Inv; simpl. auto. Qed.

Lemma run_Inv l (c c' : Config World Err SyncManager) :
  Inv c -> run env l c = Some c' -> Inv c'.
Proof.
  revert c. induction l as [|a l IH]; intros c HI Hrun; simpl in Hrun.
  - injection Hrun as <-. assumption.
  - destruct (act env a c) as [c1|] eqn:Hact; [|discriminate].
    eapply IH; [|eassumption]. eapply act_Inv; eassumption.
Qed.

(** Nothing but [resetSyncManagers] clears [initialized]. *)
Lemma act_keeps_initialized a (c c' : Config World Err SyncManager) :
  Inv c -> act env a c = Some c' ->
  is_reset a = false ->
  initialized (boot (heap c)) = true ->
  initialized (boot (heap c')) = true.
Proof.
  intros [_ [_ Hpool]] Hact Ha Hinit.
  destruct a as [|i o| | | |f]; simpl in Hact; try discriminate.
  - injection Hact as <-. unfold initializeSyncManagers.
    rewrite Hinit. simpl. assumption.
  - destruct (nth_error (pool c) i) as [t|] eqn:Hnth; [|discriminate].
    destruct (settles (waiting t) o); [|discriminate].
    injection Hact as <-.
    rewrite Forall_forall in Hpool.
    pose proof (Hpool t (nth_error_In _ _ Hnth) o (heap c)) as Hm.
    inversion Hm as [? ? hf l Hb _ _ _ | ? ? hs k Hb _ _ _]; subst; simpl;
      rewrite Hb; auto.
  - injection Hact as <-. simpl. rewrite isSyncInitialized_boot. assumption.
  - injection Hact as <-. assumption.
  - injection Hact as <-. assumption.
Qed.

Lemma run_keeps_initialized l (c c' : Config World Err SyncManager) :
  Inv c -> run env l c = Some c' ->
  no_reset l = true ->
  initialized (boot (heap c)) = true ->
  initialized (boot (heap c')) = true.
Proof.
  revert c. induction l as [|a l IH]; intros c HI Hrun Hl Hinit;
    simpl in Hrun.
  - injection Hrun as <-. assumption.
  - destruct (act env a c) as [c1|] eqn:Hact; [|discriminate].
    unfold no_reset in Hl. simpl in Hl.
    apply andb_true_iff in Hl. destruct Hl as [Ha Hl].
    apply negb_true_iff in Ha.
    apply (IH c1); auto.
    + eapply act_Inv; eassumption.
    + eapply act_keeps_initialized; eassumption.
Qed.

(** Without [resetSyncManagers], at most one call is suspended, and
    [initializing] tells whether one is. *)
Lemma act_Single a (c c' : Config World Err SyncManager) :
  Inv c -> Single c -> act env a c = Some c' ->
  is_reset a = false ->
  Single c'.
Proof.
  intros [_ [_ Hpool]] HS Hact Ha. unfold Single in *.
  destruct a as [|i o| | | |f]; simpl in Hact; try discriminate.
  - injection Hact as <-.
    destruct (initialized (boot (heap c)) || initializing (boot (heap c)))
      eqn:Hguard.
    + unfold initializeSyncManagers. rewrite Hguard. simpl. assumption.
    + apply orb_false_elim in Hguard. destruct Hguard as [Hi Hg].
      destruct (pool c) as [|t [|t' others]] eqn:Hp;
        [|destruct HS; congruence|contradiction].
      started Hi Hg; simpl; rewrite Hboot'; simpl; auto.
  - destruct (pool c) as [|t [|t' others]] eqn:Hp; [| |contradiction].
    + destruct i; discriminate.
    + destruct i as [|i]; simpl in Hact; [|destruct i; discriminate].
      destruct (settles (waiting t) o); [|discriminate].
      injection Hact as <-.
      inversion Hpool as [|? ? Ht _]; subst.
      specialize (Ht o (heap c)).
      inversion Ht as [? ? hf l Hb _ _ _ | ? ? hs k Hb _ _ _]; subst; simpl;
        rewrite Hb; auto.
  - injection Hact as <-. simpl. rewrite isSyncInitialized_boot. assumption.
  - injection Hact as <-. assumption.
  - injection Hact as <-. assumption.
Qed.

Lemma run_Single l (c c' : Config World Err SyncManager) :
  Inv c -> Single c -> run env l c = Some c' ->
  no_reset l = true ->
  Single c'.
Proof.
  revert c. induction l as [|a l IH]; intros c HI HS Hrun Hl; simpl in Hrun.
  - injection Hrun as <-. assumption.
  - destruct (act env a c) as [c1|] eqn:Hact; [|discriminate].
    unfold no_reset in Hl. simpl in Hl.
    apply andb_true_iff in Hl. destruct Hl as [Ha Hl].
    apply negb_true_iff in Ha.
    apply (IH c1); auto.
    + eapply act_Inv; eassumption.
    + eapply act_Single; eassumption.
Qed.

(** C8: in every configuration the event loop can reach from module
    load: [initializing] is clear whenever no call is suspended; the two
    flags are never both set, so no call finds [initialized] set together
    with [initializing]; once [initialized] is set it stays set until
    [resetSyncManagers] is called; and as long as [resetSyncManagers] has
    not been called, at most one call is suspended and [initializing] is
    set exactly while one is. *)
Theorem bootstrap_invariants (w : World) l c :
  run env l (loaded w) = Some c ->
  (pool c = [] -> initializing (boot (heap c)) = false) /\
  initialized (boot (heap c)) && initializing (boot (heap c)) = false /\
  (forall l' c',
     no_reset l' = true -> run env l' c = Some c' ->
     initialized (boot (heap c)) = true ->
     initialized (boot (heap c')) = true) /\
  (no_reset l = true ->
   List.length (pool c) <= 1 /\
   (initializing (boot (heap c)) = true <-> List.length (pool c) = 1)).
Proof.
  intros Hrun.
  pose proof (run_Inv l (loaded_Inv w) Hrun) as HI.
  pose proof HI as [Hflags [Hidle _]].
  split; [exact Hidle|]. split; [exact Hflags|]. split.
  - intros l' c' Hl' Hrun' Hinit.
    eapply run_keeps_initialized; eassumption.
  - intros Hl.
    assert (HS : Single c).
    { eapply run_Single; [apply loaded_Inv| |eassumption|assumption].
      reflexivity. }
    unfold Single in HS.
    destruct (pool c) as [|t [|t' others]]; simpl;
      [ | |contradiction].
    + split; [lia|]. split; [congruence|discriminate].
    + split; [lia|]. tauto.
Qed.

(** ** Whole calls, continued *)

(** The continuation at the fetch, segment by segment: resumed, it either
    finishes with at most two registry checks, or makes one check and
    waits on the timer, after which it makes one more and finishes. *)
Lemma init_at_fetch (h : Heap World Err SyncManager) u w1 :
  initialized (boot h) = false ->
  initializing (boot h) = false ->
  isLocalStorageMode env (world h) = Ok false ->
  resetRegistryInitialization env (world h) = (w1, Ok u) ->
  exists hs k,
    initializeSyncManagers env h = Suspend hs AwaitFetch k /\
    calls hs = calls h ++ [CIsLocalStorageMode; CResetRegistryInitialization;
                           CFetchWorkflowsFromDB] /\
    forall o h',
      (exists hf l,
         k o h' = Done hf (Return true) /\
         calls hf = calls h' ++ l /\
         (l = [] \/ l = [CIsRegistryInitialized] \/
          l = [CIsRegistryInitialized; CIsRegistryInitialized])) \/
      (exists hw k',
         k o h' = Suspend hw (AwaitTimer 500) k' /\
         calls hw = calls h' ++ [CIsRegistryInitialized] /\
         forall v h'', exists hf,
           k' (Ok v) h'' = Done hf (Return true) /\
           calls hf = calls h'' ++ [CIsRegistryInitialized]).
Proof.
  intros Hi Hg Hmode Hreset. to_fetch Hi Hg Hmode Hreset.
  split; [simpl; rewrite <- !app_assoc; reflexivity|].
  intros [v|e] h'; simpl.
  - destruct (isRegistryInitialized env (world h')) as [[|]|e] eqn:Hready;
      simpl; rewrite ?Hready; simpl.
    + left. eexists. eexists. split; [reflexivity|]. simpl.
      rewrite <- app_assoc. auto.
    + right. eexists. eexists. split; [reflexivity|]. simpl.
      split; [reflexivity|].
      intros v' h''. simpl.
      destruct (isRegistryInitialized env (world h'')) as [[|]|e]; simpl;
        eexists; (split; [reflexivity|]); reflexivity.
    + left. eexists. eexists. split; [reflexivity|]. simpl. auto.
  - left. eexists. exists []. split; [reflexivity|]. simpl.
    rewrite app_nil_r. auto.
Qed.

(** What a run on the fetching path awaited and invoked. *)
Lemma drive_at_fetch (h : Heap World Err SyncManager) u w1 script hf c w :
  initialized (boot h) = false ->
  initializing (boot h) = false ->
  isLocalStorageMode env (world h) = Ok false ->
  resetRegistryInitialization env (world h) = (w1, Ok u) ->
  drive script (initializeSyncManagers env h) = Some (hf, c, w) ->
  (w = [AwaitFetch] \/ w = [AwaitFetch; AwaitTimer 500]) /\
  (keeps_calls script ->
   exists l,
     calls hf = calls h ++ [CIsLocalStorageMode; CResetRegistryInitialization;
                            CFetchWorkflowsFromDB] ++ l /\
     (l = [] \/ l = [CIsRegistryInitialized] \/
      l = [CIsRegistryInitialized; CIsRegistryInitialized]) /\
     (w = [AwaitFetch; AwaitTimer 500] ->
      l = [CIsRegistryInitialized; CIsRegistryInitialized])).
Proof.
  intros Hi Hg Hmode Hreset Hrun.
  destruct (@init_at_fetch h u w1 Hi Hg Hmode Hreset)
    as [hs [k [Hinit [Hcs Hk]]]].
  rewrite Hinit in Hrun.
  destruct script as [|[o f] script']; [discriminate|].
  rewrite drive_fetch in Hrun.
  destruct (Hk o (f hs)) as [[hf1 [l [Hd [Hcl Hl]]]]|[hw [k' [Hs [Hcw Hk']]]]].
  - rewrite Hd, drive_done in Hrun. injection Hrun as <- _ <-.
    split; [auto|]. intros Hkeep.
    inversion Hkeep as [|? ? Hf _]; subst. simpl in Hf.
    exists l. rewrite Hcl, Hf, Hcs, <- app_assoc.
    split; [reflexivity|]. split; [assumption|discriminate].
  - rewrite Hs in Hrun.
    destruct script' as [|[o' f'] script'']; [discriminate|].
    simpl in Hrun. destruct o' as [v|e]; [|discriminate].
    destruct (Hk' v (f' hw)) as [hf2 [Hd Hc2]].
    rewrite Hd, drive_done in Hrun. injection Hrun as <- _ <-.
    split; [auto|]. intros Hkeep.
    inversion Hkeep as [|? ? Hf Hkeep']; subst. simpl in Hf.
    inversion Hkeep' as [|? ? Hf' _]; subst. simpl in Hf'.
    exists [CIsRegistryInitialized; CIsRegistryInitialized].
    rewrite Hc2, Hf', Hcw, Hf, Hcs, <- !app_assoc.
    split; [reflexivity|]. split; auto.
Qed.

(** X1: the boolean a call returns is what [initialized] holds when the call
    completes, however the call was scheduled; so after a call that
    returned [true] the next call returns [true] at once and leaves the
    heap alone. *)
Theorem returns_the_flag (h : Heap World Err SyncManager) script hf r w :
  drive script (initializeSyncManagers env h) = Some (hf, Return r, w) ->
  r = initialized (boot hf) /\
  (r = true ->
   initializeSyncManagers env hf = Done hf (Return true)).
Proof.
  intros Hrun.
  assert (Hflag : r = initialized (boot hf)).
  { destruct (initialized (boot h) || initializing (boot h)) eqn:Hguard.
    - unfold initializeSyncManagers in Hrun. rewrite Hguard in Hrun.
      unfold ret in Hrun. rewrite drive_done in Hrun.
      injection Hrun as <- <- _. reflexivity.
    - apply orb_false_elim in Hguard. destruct Hguard as [Hi Hg].
      started Hi Hg;
        try (rewrite drive_done in Hrun; injection Hrun as <- <- _;
             rewrite Hboot'; reflexivity).
      destruct script as [|[o f] script']; [discriminate|].
      rewrite drive_fetch in Hrun.
      destruct (drive script' (k o (f hs))) as [[[hf1 c1] w2]|] eqn:Hrest;
        [|discriminate].
      injection Hrun as <- -> _.
      destruct (drive_resumed (Hk o (f hs)) _ Hrest) as [Hc [Hinit _]].
      rewrite Hinit. congruence. }
  split; [exact Hflag|].
  intros ->. unfold initializeSyncManagers. rewrite <- Hflag. reflexivity.
Qed.

(** X2: a call awaits the fetch at most once and the timer at most once, the
    timer only after the fetch; in local-storage mode, and when the guard
    refuses it, it awaits nothing. *)
Theorem awaits_at_most_twice (h : Heap World Err SyncManager) script hf c w :
  drive script (initializeSyncManagers env h) = Some (hf, c, w) ->
  (w = [] \/ w = [AwaitFetch] \/ w = [AwaitFetch; AwaitTimer 500]) /\
  (initialized (boot h) || initializing (boot h) = true -> w = []) /\
  (isLocalStorageMode env (world h) = Ok true -> w = []).
Proof.
  intros Hrun.
  destruct (initialized (boot h) || initializing (boot h)) eqn:Hguard.
  - unfold initializeSyncManagers in Hrun. rewrite Hguard in Hrun.
    unfold ret in Hrun. rewrite drive_done in Hrun.
    injection Hrun as _ _ <-. auto.
  - apply orb_false_elim in Hguard. destruct Hguard as [Hi Hg].
    destruct (isLocalStorageMode env (world h)) as [[|]|e] eqn:Hmode.
    + started Hi Hg.
      rewrite drive_done in Hrun. injection Hrun as _ _ <-. auto.
    + destruct (resetRegistryInitialization env (world h)) as [w1 [u|e]]
        eqn:Hreset.
      * destruct (@drive_at_fetch h u w1 script hf c w Hi Hg Hmode Hreset Hrun)
          as [Hw _].
        split; [tauto|]. split; discriminate.
      * started Hi Hg.
        rewrite drive_done in Hrun. injection Hrun as _ _ <-.
        split; [auto|]. split; [discriminate|auto].
    + started Hi Hg.
      rewrite drive_done in Hrun. injection Hrun as _ _ <-.
      split; [auto|]. split; [discriminate|auto].
Qed.

(** X3: the collaborators one call invokes, in order, are one of six
    sequences: none at all; the storage-mode predicate; then the registry
    reset; then the fetch; then one or two registry checks.  So the fetch
    is attempted at most once, never before the reset has returned, and
    the registry is asked at most twice. *)
Theorem invokes_in_order (h : Heap World Err SyncManager) script hf c w :
  keeps_calls script ->
  drive script (initializeSyncManagers env h) = Some (hf, c, w) ->
  exists l,
    calls hf = calls h ++ l /\
    In l [ [];
           [CIsLocalStorageMode];
           [CIsLocalStorageMode; CResetRegistryInitialization];
           [CIsLocalStorageMode; CResetRegistryInitialization;
            CFetchWorkflowsFromDB];
           [CIsLocalStorageMode; CResetRegistryInitialization;
            CFetchWorkflowsFromDB; CIsRegistryInitialized];
           [CIsLocalStorageMode; CResetRegistryInitialization;
            CFetchWorkflowsFromDB; CIsRegistryInitialized;
            CIsRegistryInitialized] ] /\
    (w = [AwaitFetch; AwaitTimer 500] ->
     l = [CIsLocalStorageMode; CResetRegistryInitialization;
          CFetchWorkflowsFromDB; CIsRegistryInitialized;
          CIsRegistryInitialized]).
Proof.
  intros Hkeep Hrun.
  destruct (initialized (boot h) || initializing (boot h)) eqn:Hguard.
  - unfold initializeSyncManagers in Hrun. rewrite Hguard in Hrun.
    unfold ret in Hrun. rewrite drive_done in Hrun.
    injection Hrun as <- _ <-. exists []. rewrite app_nil_r.
    split; [reflexivity|]. split; [simpl; auto|discriminate].
  - apply orb_false_elim in Hguard. destruct Hguard as [Hi Hg].
    destruct (isLocalStorageMode env (world h)) as [[|]|e] eqn:Hmode.
    + started Hi Hg.
      rewrite drive_done in Hrun. injection Hrun as <- _ <-.
      exists [CIsLocalStorageMode].
      split; [assumption|]. split; [simpl; auto|discriminate].
    + destruct (resetRegistryInitialization env (world h)) as [w1 [u|e]]
        eqn:Hreset.
      * destruct (@drive_at_fetch h u w1 script hf c w Hi Hg Hmode Hreset Hrun)
          as [_ Hcalls].
        destruct (Hcalls Hkeep) as [l [Hl [Hshape Htimer]]].
        exists ([CIsLocalStorageMode; CResetRegistryInitialization;
                 CFetchWorkflowsFromDB] ++ l).
        split; [exact Hl|]. split.
        -- destruct Hshape as [Hl0 | [Hl1 | Hl2]]; subst l; simpl; auto 10.
        -- intros Hw. rewrite (Htimer Hw). reflexivity.
      * started Hi Hg.
        rewrite drive_done in Hrun. injection Hrun as <- _ <-.
        exists [CIsLocalStorageMode; CResetRegistryInitialization].
        split; [assumption|]. split; [simpl; auto|discriminate].
    + started Hi Hg.
      rewrite drive_done in Hrun. injection Hrun as <- _ <-.
      exists [CIsLocalStorageMode].
      split; [assumption|]. split; [simpl; auto|discriminate].
Qed.

(** X4: a call that passed the guard returns [false] only when
    [isLocalStorageMode] threw, or returned [false] and
    [resetRegistryInitialization] threw.  It then failed before any
    [await], logged that one error, and left both flags clear, so the
    next call passes the guard again. *)
Theorem failure_is_early_and_retryable
    (h : Heap World Err SyncManager) script hf w :
  initialized (boot h) = false ->
  initializing (boot h) = false ->
  drive script (initializeSyncManagers env h) = Some (hf, Return false, w) ->
  w = [] /\
  initialized (boot hf) || initializing (boot hf) = false /\
  exists e,
    (isLocalStorageMode env (world h) = Raise e \/
     (isLocalStorageMode env (world h) = Ok false /\
      snd (resetRegistryInitialization env (world h)) = Raise e)) /\
    log hf = log h ++ [LError "Error initializing sync managers:" e].
Proof.
  intros Hi Hg Hrun. started Hi Hg.
  - rewrite drive_done in Hrun. discriminate.
  - rewrite drive_done in Hrun. injection Hrun as <- <-.
    rewrite Hboot'. repeat split. exists e'. auto.
  - rewrite drive_done in Hrun. injection Hrun as <- <-.
    rewrite Hboot'. repeat split. exists e'. rewrite Hreset'. auto.
  - destruct script as [|[o f] script']; [discriminate|].
    rewrite drive_fetch in Hrun.
    destruct (drive script' (k o (f hs))) as [[[hf1 c1] w2]|] eqn:Hrest;
      [|discriminate].
    injection Hrun as <- -> <-.
    destruct (drive_resumed (Hk o (f hs)) _ Hrest) as [Hc _].
    discriminate.
Qed.

(** X5: [initializeSyncManagers()] returning [true] does not make
    [isSyncInitialized()] true: after a call in local-storage mode, which
    leaves the registry alone, [isSyncInitialized()] returns what
    [isRegistryInitialized()] returned before the call. *)
Theorem local_mode_leaves_readiness_to_registry
    (h : Heap World Err SyncManager) hf :
  initialized (boot h) = false ->
  initializing (boot h) = false ->
  isLocalStorageMode env (world h) = Ok true ->
  initializeSyncManagers env h = Done hf (Return true) ->
  snd (isSyncInitialized env hf) = isRegistryInitialized env (world h).
Proof.
  intros Hi Hg Hmode Hinit. started Hi Hg.
  injection Hinit as <-.
  unfold isSyncInitialized. rewrite Hboot'. simpl. rewrite Hworld'.
  reflexivity.
Qed.

(** X6: [resetSyncManagers()] re-arms the bootstrap from any state, also when
    its registry reset throws: the next call passes the guard.  In
    local-storage mode it restores [managers] and [initialized]; on the
    non-local path it resets the registry a second time and starts the
    fetch. *)
Theorem reset_rearms (h : Heap World Err SyncManager) :
  let h' := fst (resetSyncManagers env h) in
  snd (resetSyncManagers env h)
  = snd (resetRegistryInitialization env (world h)) /\
  (isLocalStorageMode env (world h') = Ok true ->
   exists hf,
     initializeSyncManagers env h' = Done hf (Return true) /\
     initialized (boot hf) = true /\
     getSyncManagers hf = (hf, Ok [workflowSync env])) /\
  (forall u w2,
     isLocalStorageMode env (world h') = Ok false ->
     resetRegistryInitialization env (world h') = (w2, Ok u) ->
     exists hs k,
       initializeSyncManagers env h' = Suspend hs AwaitFetch k /\
       calls hs = calls h ++
         [CResetRegistryInitialization; CIsLocalStorageMode;
          CResetRegistryInitialization; CFetchWorkflowsFromDB]).
Proof.
  intros h'.
  assert (Hboot : boot h' = boot0) by apply resetSyncManagers_boot.
  assert (Hi : initialized (boot h') = false) by (rewrite Hboot; reflexivity).
  assert (Hg : initializing (boot h') = false) by (rewrite Hboot; reflexivity).
  assert (Hcalls : calls h' = calls h ++ [CResetRegistryInitialization]).
  { unfold h', resetSyncManagers, call_resetRegistryInitialization. simpl.
    destruct (resetRegistryInitialization env (world h)); reflexivity. }
  split; [|split].
  - unfold resetSyncManagers, call_resetRegistryInitialization. simpl.
    destruct (resetRegistryInitialization env (world h)); reflexivity.
  - intros Hmode. started Hi Hg.
    exists hf'. unfold getSyncManagers. rewrite Hboot'. auto.
  - intros u w2 Hmode Hreset.
    destruct (@init_at_fetch h' u w2 Hi Hg Hmode Hreset)
      as [hs [k [Hinit [Hcs _]]]].
    exists hs, k. split; [exact Hinit|].
    rewrite Hcs, Hcalls, <- app_assoc. reflexivity.
Qed.

(** X7: [resetSyncManagers()] does not cancel a suspended call.  When the
    call is resumed after a reset it still sets [initialized] and returns
    [true], while [managers] stays as the reset left it: empty. *)
Theorem reset_does_not_cancel (h : Heap World Err SyncManager) u w1 o f rest :
  initialized (boot h) = false ->
  initializing (boot h) = false ->
  isLocalStorageMode env (world h) = Ok false ->
  resetRegistryInitialization env (world h) = (w1, Ok u) ->
  (forall x, boot (f x) = boot x) ->
  exists hf w,
    drive ((o, fun x => fst (resetSyncManagers env x)) :: (Ok tt, f) :: rest)
      (initializeSyncManagers env h)
    = Some (hf, Return true, w) /\
    initialized (boot hf) = true /\
    managers (boot hf) = [] /\
    getSyncManagers hf = (hf, Ok []).
Proof.
  intros Hi Hg Hmode Hreset Hf. started Hi Hg.
  rewrite drive_fetch. cbv beta.
  pose proof (Hk o (fst (resetSyncManagers env hs))) as Hres.
  pose proof (resetSyncManagers_boot hs) as Hb0.
  inversion Hres as [? ? hf l Hb _ _ _ | ? ? hw k' Hb _ _ Hk']; subst.
  - rewrite drive_done. exists hf. eexists. split; [reflexivity|].
    unfold getSyncManagers. rewrite Hb, Hb0. auto.
  - simpl. specialize (Hk' (Ok tt) (f hw)).
    inversion Hk' as [? ? hf l Hb' _ _ _ | ]; subst.
    rewrite drive_done. exists hf. eexists. split; [reflexivity|].
    unfold getSyncManagers. rewrite Hb', Hf, Hb, Hb0. auto.
Qed.

(** ** The event loop, continued *)

Lemma act_managers a (c c' : Config World Err SyncManager) :
  Inv c -> act env a c = Some c' ->
  managers (boot (heap c)) = [] \/
  managers (boot (heap c)) = [workflowSync env] ->
  managers (boot (heap c')) = [] \/
  managers (boot (heap c')) = [workflowSync env].
Proof.
  intros [_ [_ Hpool]] Hact Hman.
  destruct a as [|i o| | | |f]; simpl in Hact.
  - injection Hact as <-.
    destruct (initialized (boot (heap c)) || initializing (boot (heap c)))
      eqn:Hguard.
    + unfold initializeSyncManagers. rewrite Hguard. simpl. assumption.
    + apply orb_false_elim in Hguard. destruct Hguard as [Hi Hg].
      started Hi Hg; simpl; rewrite Hboot'; simpl; auto.
  - destruct (nth_error (pool c) i) as [t|] eqn:Hnth; [|discriminate].
    destruct (settles (waiting t) o); [|discriminate].
    injection Hact as <-.
    rewrite Forall_forall in Hpool.
    pose proof (Hpool t (nth_error_In _ _ Hnth) o (heap c)) as Hres.
    inversion Hres as [? ? hf l Hb _ _ _ | ? ? hs k Hb _ _ _]; subst; simpl;
      rewrite Hb; auto.
  - injection Hact as <-. simpl. rewrite resetSyncManagers_boot. auto.
  - injection Hact as <-. simpl. rewrite isSyncInitialized_boot. assumption.
  - injection Hact as <-. assumption.
  - injection Hact as <-. assumption.
Qed.

Lemma act_tracked a (c c' : Config World Err SyncManager) :
  Inv c -> Single c -> act env a c = Some c' ->
  is_reset a = false ->
  (initialized (boot (heap c)) || initializing (boot (heap c)) = true ->
   managers (boot (heap c)) = [workflowSync env]) ->
  initialized (boot (heap c')) || initializing (boot (heap c')) = true ->
  managers (boot (heap c')) = [workflowSync env].
Proof.
  intros [_ [_ Hpool]] HS Hact Ha Hman. unfold Single in HS.
  destruct a as [|i o| | | |f]; simpl in Hact; try discriminate.
  - injection Hact as <-.
    destruct (initialized (boot (heap c)) || initializing (boot (heap c)))
      eqn:Hguard.
    + unfold initializeSyncManagers. rewrite Hguard. simpl.
      intros _. auto.
    + apply orb_false_elim in Hguard. destruct Hguard as [Hi Hg].
      started Hi Hg; simpl; rewrite Hboot'; simpl; auto; discriminate.
  - destruct (pool c) as [|t [|t' others]] eqn:Hp; [| |contradiction].
    + destruct i; discriminate.
    + destruct i as [|i]; simpl in Hact; [|destruct i; discriminate].
      destruct (settles (waiting t) o); [|discriminate].
      injection Hact as <-.
      inversion Hpool as [|? ? Ht _]; subst.
      specialize (Ht o (heap c)). destruct HS as [Hing _].
      assert (Hm : managers (boot (heap c)) = [workflowSync env]).
      { apply Hman. rewrite Hing. apply orb_true_r. }
      inversion Ht as [? ? hf l Hb _ _ _ | ? ? hs k Hb _ _ _]; subst; simpl;
        rewrite Hb; simpl; auto.
  - injection Hact as <-. simpl. rewrite isSyncInitialized_boot. assumption.
  - injection Hact as <-. assumption.
  - injection Hact as <-. assumption.
Qed.

Lemma run_managers l (c c' : Config World Err SyncManager) :
  Inv c -> run env l c = Some c' ->
  managers (boot (heap c)) = [] \/
  managers (boot (heap c)) = [workflowSync env] ->
  managers (boot (heap c')) = [] \/
  managers (boot (heap c')) = [workflowSync env].
Proof.
  revert c. induction l as [|a l IH]; intros c HI Hrun Hman; simpl in Hrun.
  - injection Hrun as <-. assumption.
  - destruct (act env a c) as [c1|] eqn:Hact; [|discriminate].
    apply (IH c1); auto.
    + eapply act_Inv; eassumption.
    + eapply act_managers; eassumption.
Qed.

Lemma run_tracked l (c c' : Config World Err SyncManager) :
  Inv c -> Single c -> run env l c = Some c' ->
  no_reset l = true ->
  (initialized (boot (heap c)) || initializing (boot (heap c)) = true ->
   managers (boot (heap c)) = [workflowSync env]) ->
  initialized (boot (heap c')) || initializing (boot (heap c')) = true ->
  managers (boot (heap c')) = [workflowSync env].
Proof.
  revert c. induction l as [|a l IH]; intros c HI HS Hrun Hl Hman;
    simpl in Hrun.
  - injection Hrun as <-. assumption.
  - destruct (act env a c) as [c1|] eqn:Hact; [|discriminate].
    unfold no_reset in Hl. simpl in Hl.
    apply andb_true_iff in Hl. destruct Hl as [Ha Hl].
    apply negb_true_iff in Ha.
    apply (IH c1); auto.
    + eapply act_Inv; eassumption.
    + eapply act_Single; eassumption.
    + eapply act_tracked; eassumption.
Qed.

(** X8: in every configuration the event loop reaches from module load,
    [managers] is empty or holds exactly the workflow-sync handle.  As
    long as [resetSyncManagers] has not been called, a set flag means the
    handle is there: [getSyncManagers()] returns it whenever
    [initialized] or [initializing] holds. *)
Theorem managers_follow_flags (w : World) l c :
  run env l (loaded w) = Some c ->
  (managers (boot (heap c)) = [] \/
   managers (boot (heap c)) = [workflowSync env]) /\
  (no_reset l = true ->
   initialized (boot (heap c)) || initializing (boot (heap c)) = true ->
   getSyncManagers (heap c) = (heap c, Ok [workflowSync env])).
Proof.
  intros Hrun. split.
  - eapply run_managers; [apply loaded_Inv|eassumption|].
    left. reflexivity.
  - intros Hl Hflag. unfold getSyncManagers.
    rewrite (@run_tracked l (loaded w) c); auto.
    + apply loaded_Inv.
    + reflexivity.
    + discriminate.
Qed.

(** A resumed call leaves the world as it finds it. *)
Lemma drive_resumed_world n (h : Heap World Err SyncManager) m :
  Resumed n h m ->
  forall (script : Script World Err SyncManager) hf c w,
    Forall (fun sf => forall x, world (snd sf x) = world x) script ->
    drive script m = Some (hf, c, w) ->
    world hf = world h.
Proof.
  induction 1 as [n h hf0 l _ Hworld _ _ | n h hs k _ Hworld _ _ IH];
    intros script hf c w Hkeep Hrun.
  - rewrite drive_done in Hrun. injection Hrun as <- _ _. assumption.
  - destruct script as [|[o f] script']; simpl in Hrun; [discriminate|].
    destruct o as [u|e]; simpl in Hrun; [|discriminate].
    destruct (drive script' (k (Ok u) (f hs))) as [[[hf1 c1] w1]|] eqn:Hrest;
      [|discriminate].
    injection Hrun as <- _ _. inversion Hkeep as [|? ? Hf Hkeep']; subst.
    rewrite (IH _ _ _ _ _ _ Hkeep' Hrest). simpl in Hf.
    rewrite Hf. assumption.
Qed.

(** X9: a call changes the world by what [resetRegistryInitialization] and
    then [fetchWorkflowsFromDB] do to it, and in no other way: when
    nothing else touches the world meanwhile, the world at completion is
    the initial one, the one after the reset, or the one after the reset
    and the start of the fetch. *)
Theorem world_changed_by_reset_and_fetch_only
    (h : Heap World Err SyncManager) script hf c w :
  Forall (fun sf => forall x, world (snd sf x) = world x) script ->
  drive script (initializeSyncManagers env h) = Some (hf, c, w) ->
  (world hf = world h /\ w = []) \/
  (world hf = fst (resetRegistryInitialization env (world h)) /\
   w = [] /\ c = Return false) \/
  (world hf = fetchWorkflowsFromDB env
                (fst (resetRegistryInitialization env (world h))) /\
   c = Return true).
Proof.
  intros Hkeep Hrun.
  destruct (initialized (boot h) || initializing (boot h)) eqn:Hguard.
  - unfold initializeSyncManagers in Hrun. rewrite Hguard in Hrun.
    unfold ret in Hrun. rewrite drive_done in Hrun.
    injection Hrun as <- _ <-. auto.
  - apply orb_false_elim in Hguard. destruct Hguard as [Hi Hg].
    started Hi Hg.
    + rewrite drive_done in Hrun. injection Hrun as <- _ <-. auto.
    + rewrite drive_done in Hrun. injection Hrun as <- _ <-. auto.
    + rewrite drive_done in Hrun. injection Hrun as <- <- <-.
      right. left. rewrite Hreset'. auto.
    + destruct script as [|[o f] script']; [discriminate|].
      rewrite drive_fetch in Hrun.
      destruct (drive script' (k o (f hs))) as [[[hf1 c1] w2]|] eqn:Hrest;
        [|discriminate].
      injection Hrun as <- <- _.
      inversion Hkeep as [|? ? Hf Hkeep']; subst. simpl in Hf.
      right. right. split.
      * rewrite (drive_resumed_world (Hk o (f hs)) Hkeep' Hrest).
        rewrite Hf, Hworld', Hreset'. reflexivity.
      * destruct (drive_resumed (Hk o (f hs)) _ Hrest) as [Hc _]. exact Hc.
Qed.

Lemma fetches_app (l1 l2 : list Call) :
  filter (Call_eqb CFetchWorkflowsFromDB) (l1 ++ l2)
  = filter (Call_eqb CFetchWorkflowsFromDB) l1
    ++ filter (Call_eqb CFetchWorkflowsFromDB) l2.
Proof. apply filter_app. Qed.

Lemma fetches_checks (l : list Call) :
  Forall (eq CIsRegistryInitialized) l ->
  filter (Call_eqb CFetchWorkflowsFromDB) l = [].
Proof.
  induction 1 as [|x l Hx _ IH]; simpl; [reflexivity|].
  subst x. simpl. assumption.
Qed.

(** One step of the event loop without reset: no fetch so far, or one
    fetch and a flag set. *)
Lemma act_fetch_once a (c c' : Config World Err SyncManager) :
  Inv c -> act env a c = Some c' ->
  is_reset a = false ->
  filter (Call_eqb CFetchWorkflowsFromDB) (calls (heap c)) = [] \/
  (List.length
     (filter (Call_eqb CFetchWorkflowsFromDB) (calls (heap c))) = 1 /\
   initialized (boot (heap c)) || initializing (boot (heap c)) = true) ->
  filter (Call_eqb CFetchWorkflowsFromDB) (calls (heap c')) = [] \/
  (List.length
     (filter (Call_eqb CFetchWorkflowsFromDB) (calls (heap c'))) = 1 /\
   initialized (boot (heap c')) || initializing (boot (heap c')) = true).
Proof.
  intros [_ [_ Hpool]] Hact Ha Hcount.
  destruct a as [|i o| | | |f]; simpl in Hact; try discriminate.
  - injection Hact as <-.
    destruct (initialized (boot (heap c)) || initializing (boot (heap c)))
      eqn:Hguard.
    + unfold initializeSyncManagers. rewrite Hguard. simpl.
      rewrite Hguard. assumption.
    + destruct Hcount as [Hnone|[_ Hflag]]; [|discriminate].
      apply orb_false_elim in Hguard. destruct Hguard as [Hi Hg].
      started Hi Hg; simpl; rewrite Hcalls', fetches_app, Hnone; simpl; auto.
      right. rewrite Hboot'. auto.
  - destruct (nth_error (pool c) i) as [t|] eqn:Hnth; [|discriminate].
    destruct (settles (waiting t) o); [|discriminate].
    injection Hact as <-.
    rewrite Forall_forall in Hpool.
    pose proof (Hpool t (nth_error_In _ _ Hnth) o (heap c)) as Hres.
    inversion Hres as [? ? hf l Hb _ Hc Hl | ? ? hs k Hb _ Hc _]; subst;
      simpl; rewrite Hc, fetches_app.
    + rewrite (fetches_checks Hl), app_nil_r, Hb. simpl.
      destruct Hcount as [Hnone|[Hone _]]; auto.
    + simpl. rewrite app_nil_r, Hb. assumption.
  - injection Hact as <-. simpl.
    rewrite isSyncInitialized_boot.
    unfold isSyncInitialized, call_isRegistryInitialized.
    destruct (initialized (boot (heap c))); simpl; [|assumption].
    rewrite fetches_app. simpl. rewrite app_nil_r. assumption.
  - injection Hact as <-. assumption.
  - injection Hact as <-. assumption.
Qed.

(** X10: however often [initializeSyncManagers()] is called, and however the
    calls interleave, [fetchWorkflowsFromDB] is invoked at most once
    between module load and the first [resetSyncManagers()]. *)
Theorem fetch_at_most_once (w : World) l c :
  run env l (loaded w) = Some c ->
  no_reset l = true ->
  List.length
    (filter (Call_eqb CFetchWorkflowsFromDB) (calls (heap c))) <= 1.
Proof.
  intros Hrun Hl.
  assert (Hgen : forall l (c0 c1 : Config World Err SyncManager),
             Inv c0 -> run env l c0 = Some c1 -> no_reset l = true ->
             filter (Call_eqb CFetchWorkflowsFromDB) (calls (heap c0)) = [] \/
             (List.length (filter (Call_eqb CFetchWorkflowsFromDB)
                             (calls (heap c0))) = 1 /\
              initialized (boot (heap c0)) || initializing (boot (heap c0))
              = true) ->
             filter (Call_eqb CFetchWorkflowsFromDB) (calls (heap c1)) = [] \/
             (List.length (filter (Call_eqb CFetchWorkflowsFromDB)
                             (calls (heap c1))) = 1 /\
              initialized (boot (heap c1)) || initializing (boot (heap c1))
              = true)).
  { clear. induction l as [|a l IH]; intros c0 c1 HI Hrun Hl Hc; simpl in Hrun.
    - injection Hrun as <-. assumption.
    - destruct (act env a c0) as [c2|] eqn:Hact; [|discriminate].
      unfold no_reset in Hl. simpl in Hl.
      apply andb_true_iff in Hl. destruct Hl as [Ha Hl].
      apply negb_true_iff in Ha.
      apply (IH c2); auto.
      + eapply act_Inv; eassumption.
      + eapply act_fetch_once; eassumption. }
  destruct (Hgen l (loaded w) c (loaded_Inv w) Hrun Hl) as [Hnone|[Hone _]].
  - left. reflexivity.
  - rewrite Hnone. simpl. lia.
  - rewrite Hone. lia.
Qed.

End Properties.

(** * The properties at work in the concrete world *)

(** A second call, arriving while the first is suspended, returns
    [false]; a call after completion returns [true]. *)
Lemma guard_returns_initialized_witness :
  initializeSyncManagers Demo.env (Demo.in_flight Demo.remote)
  = Done (Demo.in_flight Demo.remote) (Return false) /\
  initializeSyncManagers Demo.env (Demo.completed Demo.remote)
  = Done (Demo.completed Demo.remote) (Return true).
Proof.
  split.
  - apply (proj1 (guard_returns_initialized Demo.env
                    (Demo.in_flight Demo.remote))).
    reflexivity.
  - apply (proj2 (proj2 (guard_returns_initialized Demo.env
                           (Demo.completed Demo.remote))));
      reflexivity.
Defined.

Lemma fetch_error_is_swallowed_witness :
  exists hs k,
    initializeSyncManagers Demo.env (Demo.fresh Demo.remote)
    = Suspend hs AwaitFetch k /\
    invoked CFetchWorkflowsFromDB (calls hs) = true /\
    forall e h', exists hf,
      k (Raise e) h' = Done hf (Return true) /\
      initialized (boot hf) = true /\
      initializing (boot hf) = false /\
      log hf = log h' ++ [LError "Error fetching data from DB:" e] /\
      forall h'', boot h'' = boot hf ->
        snd (isSyncInitialized Demo.env h'')
        = isRegistryInitialized Demo.env (world h'').
Proof.
  apply (@fetch_error_is_swallowed _ _ _ Demo.env (Demo.fresh Demo.remote) tt
           (fst (resetRegistryInitialization Demo.env Demo.remote)));
    reflexivity.
Defined.

(** A rejected fetch with the registry not ready: the call returns
    [true] having awaited nothing but the fetch and without having asked
    the registry. *)
Lemma rejected_fetch_skips_registry_check :
  exists hf,
    drive [(Raise "network down", fun h => h)]
      (initializeSyncManagers Demo.env (Demo.fresh Demo.remote))
    = Some (hf, Return true, [AwaitFetch]) /\
    isRegistryInitialized Demo.env (world hf) = Ok false /\
    invoked CIsRegistryInitialized (calls hf) = false.
Proof. eexists. repeat split. Qed.

(** A resolved fetch with the registry not ready: one wait on the timer,
    during which the registry becomes ready, then a second check. *)
Example resolved_fetch_waits_once :
  exists hf,
    drive [(Ok tt, fun h => h); (Ok tt, Demo.becomes_ready)]
      (initializeSyncManagers Demo.env (Demo.fresh Demo.remote))
    = Some (hf, Return true, [AwaitFetch; AwaitTimer 500]) /\
    calls hf = [CIsLocalStorageMode; CResetRegistryInitialization;
                CFetchWorkflowsFromDB; CIsRegistryInitialized;
                CIsRegistryInitialized] /\
    log hf = [LInfo "Waiting for registry initialization to complete...";
              LInfo "Registry initialization verified"].
Proof. eexists. repeat split. Qed.

Lemma registry_checked_after_resolved_fetch_witness :
  exists hs k,
    initializeSyncManagers Demo.env (Demo.fresh Demo.remote)
    = Suspend hs AwaitFetch k /\
    (forall e h', exists hf,
       k (Raise e) h' = Done hf (Return true) /\
       initialized (boot hf) = true /\
       calls hf = calls h').
Proof.
  destruct (@registry_checked_after_resolved_fetch _ _ _ Demo.env
              (Demo.fresh Demo.remote) tt
              (fst (resetRegistryInitialization Demo.env Demo.remote))
              eq_refl eq_refl eq_refl eq_refl)
    as [hs [k [Hinit [_ [_ Hrejected]]]]].
  exists hs, k. split; assumption.
Defined.

Lemma init_never_throws_witness :
  (exists r, Return (E := string) false = Return r) /\
  exists hf,
    initializeSyncManagers Demo.env (Demo.fresh Demo.unreadable)
    = Done hf (Return false) /\
    initializing (boot hf) = false /\
    log hf = [LError "Error initializing sync managers:" "storage denied"].
Proof.
  pose proof (init_never_throws Demo.env (Demo.fresh Demo.unreadable))
    as [Hreturns [_ Hfailed]].
  split.
  - refine (proj1 (Hreturns [] _ (Return false) [] _)). reflexivity.
  - apply Hfailed; [reflexivity|]. left. reflexivity.
Defined.

Lemma local_mode_initializes_witness :
  exists hf,
    initializeSyncManagers Demo.env (Demo.fresh Demo.local)
    = Done hf (Return true) /\
    managers (boot hf) = ["workflowSync"] /\
    initialized (boot hf) = true /\
    initializing (boot hf) = false /\
    calls hf = [CIsLocalStorageMode] /\
    invoked CFetchWorkflowsFromDB (calls hf) = false /\
    getSyncManagers hf = (hf, Ok ["workflowSync"]).
Proof.
  apply (local_mode_initializes Demo.env (Demo.fresh Demo.local));
    reflexivity.
Defined.

Lemma isSyncInitialized_is_conjunction_witness :
  snd (isSyncInitialized Demo.env (Demo.completed Demo.remote)) = Ok true /\
  snd (isSyncInitialized Demo.env (Demo.fresh Demo.remote)) = Ok false.
Proof.
  split.
  - apply (proj1 (isSyncInitialized_is_conjunction Demo.env
                    (Demo.completed Demo.remote)) true).
    reflexivity.
  - apply (proj1 (isSyncInitialized_is_conjunction Demo.env
                    (Demo.fresh Demo.remote)) true).
    reflexivity.
Defined.

(** Two calls, the second refused by the guard, then the fetch settles
    and the timer fires. *)
Lemma bootstrap_invariants_witness :
  exists c,
    run Demo.env
      [CallInitialize; CallInitialize; Settle 0 (Ok tt); Settle 0 (Ok tt)]
      (loaded Demo.remote) = Some c /\
    pool c = [] /\
    initialized (boot (heap c)) = true /\
    initializing (boot (heap c)) = false.
Proof.
  eexists. split; [reflexivity|].
  split; [reflexivity|]. split; [reflexivity|].
  refine (proj1 (@bootstrap_invariants _ _ _ Demo.env Demo.remote
            [CallInitialize; CallInitialize; Settle 0 (Ok tt);
             Settle 0 (Ok tt)] _ _) _);
    reflexivity.
Defined.

Lemma outer_failure_keeps_partial_state_witness :
  exists hf,
    initializeSyncManagers Demo.env (Demo.fresh Demo.broken)
    = Done hf (Return false) /\
    managers (boot hf) = ["workflowSync"] /\
    initialized (boot hf) = false /\
    calls hf = [CIsLocalStorageMode; CResetRegistryInitialization].
Proof.
  eexists. split; [reflexivity|].
  pose proof (@outer_failure_keeps_partial_state _ _ _ Demo.env
                (Demo.fresh Demo.broken) [] _ []
                eq_refl eq_refl eq_refl eq_refl)
    as [Hmanagers [_ [Hinit [_ [Hcalls _]]]]].
  split; [exact Hmanagers|]. split; [exact Hinit|exact Hcalls].
Defined.

Lemma reset_only_on_remote_path_witness :
  exists hf,
    drive [] (initializeSyncManagers Demo.env (Demo.fresh Demo.local))
    = Some (hf, Return true, []) /\
    calls hf = [CIsLocalStorageMode] /\
    world hf = Demo.local.
Proof.
  eexists. split; [reflexivity|].
  destruct (@reset_only_on_remote_path _ _ _ Demo.env
              (Demo.fresh Demo.local) [] _ _ _ (Forall_nil _) eq_refl)
    as [l [Hcalls [_ Hlocal]]].
  destruct (Hlocal eq_refl eq_refl eq_refl) as [Hl [Hw _]].
  split; [rewrite Hcalls, Hl; reflexivity | exact Hw].
Defined.

(** ** Further properties at work *)

Lemma returns_the_flag_witness :
  exists hf,
    drive [] (initializeSyncManagers Demo.env (Demo.fresh Demo.local))
    = Some (hf, Return true, []) /\
    initialized (boot hf) = true /\
    initializeSyncManagers Demo.env hf = Done hf (Return true).
Proof.
  eexists. split; [reflexivity|].
  pose proof (@returns_the_flag _ _ _ Demo.env (Demo.fresh Demo.local)
                [] _ true [] eq_refl) as [Hflag Hnext].
  split; [symmetry; exact Hflag | exact (Hnext eq_refl)].
Defined.

Lemma awaits_at_most_twice_witness :
  [AwaitFetch; AwaitTimer 500] = [] \/
  [AwaitFetch; AwaitTimer 500] = [AwaitFetch] \/
  [AwaitFetch; AwaitTimer 500] = [AwaitFetch; AwaitTimer 500].
Proof.
  refine (proj1 (@awaits_at_most_twice _ _ _ Demo.env (Demo.fresh Demo.remote)
                   [(Ok tt, fun h => h); (Ok tt, Demo.becomes_ready)]
                   _ (Return true) [AwaitFetch; AwaitTimer 500] _)).
  reflexivity.
Defined.

Lemma invokes_in_order_witness :
  exists hf l,
    drive [(Raise "network down", fun h => h)]
      (initializeSyncManagers Demo.env (Demo.fresh Demo.remote))
    = Some (hf, Return true, [AwaitFetch]) /\
    calls hf = [] ++ l /\
    l = [CIsLocalStorageMode; CResetRegistryInitialization;
         CFetchWorkflowsFromDB].
Proof.
  eexists.
  assert (Hkeep : keeps_calls
            [(Raise (A := unit) "network down",
              fun h : Heap Demo.registry string string => h)]).
  { constructor; [intros x; reflexivity | constructor]. }
  destruct (@invokes_in_order _ _ _ Demo.env (Demo.fresh Demo.remote)
              [(Raise "network down", fun h => h)] _ (Return true)
              [AwaitFetch] Hkeep eq_refl)
    as [l [Hcalls _]].
  exists l. split; [reflexivity|]. split; [exact Hcalls|].
  simpl in Hcalls. symmetry. exact Hcalls.
Defined.

Lemma failure_is_early_and_retryable_witness :
  exists hf,
    drive [] (initializeSyncManagers Demo.env (Demo.fresh Demo.unreadable))
    = Some (hf, Return false, []) /\
    initialized (boot hf) || initializing (boot hf) = false.
Proof.
  eexists. split; [reflexivity|].
  exact (proj1 (proj2 (@failure_is_early_and_retryable _ _ _ Demo.env
                         (Demo.fresh Demo.unreadable) [] _ []
                         eq_refl eq_refl eq_refl))).
Defined.

(** Local-storage mode with a registry that is not ready: the call
    returns [true], [isSyncInitialized()] then returns [false]. *)
Lemma local_mode_leaves_readiness_to_registry_witness :
  exists hf,
    initializeSyncManagers Demo.env
      (Demo.fresh {| Demo.mode := Ok true; Demo.ready := false;
                     Demo.reset_fails := false |})
    = Done hf (Return true) /\
    snd (isSyncInitialized Demo.env hf) = Ok false.
Proof.
  eexists. split; [reflexivity|].
  apply (@local_mode_leaves_readiness_to_registry _ _ _ Demo.env
           (Demo.fresh {| Demo.mode := Ok true; Demo.ready := false;
                          Demo.reset_fails := false |}));
    reflexivity.
Defined.

Lemma reset_rearms_witness :
  exists hf,
    initializeSyncManagers Demo.env
      (fst (resetSyncManagers Demo.env (Demo.completed Demo.local)))
    = Done hf (Return true) /\
    initialized (boot hf) = true /\
    getSyncManagers hf = (hf, Ok ["workflowSync"]).
Proof.
  apply (proj1 (proj2 (reset_rearms Demo.env (Demo.completed Demo.local)))).
  reflexivity.
Defined.

Lemma reset_does_not_cancel_witness :
  exists hf w,
    drive [(Ok tt, fun x => fst (resetSyncManagers Demo.env x));
           (Ok tt, fun x => x)]
      (initializeSyncManagers Demo.env (Demo.fresh Demo.remote))
    = Some (hf, Return true, w) /\
    initialized (boot hf) = true /\
    managers (boot hf) = [] /\
    getSyncManagers hf = (hf, Ok []).
Proof.
  apply (@reset_does_not_cancel _ _ _ Demo.env (Demo.fresh Demo.remote) tt
           (fst (resetRegistryInitialization Demo.env Demo.remote))
           (Ok tt) (fun x => x) []);
    reflexivity.
Defined.

Lemma managers_follow_flags_witness :
  exists c,
    run Demo.env [CallInitialize; CallGetSyncManagers] (loaded Demo.remote)
    = Some c /\
    getSyncManagers (heap c) = (heap c, Ok ["workflowSync"]).
Proof.
  eexists. split; [reflexivity|].
  refine (proj2 (@managers_follow_flags _ _ _ Demo.env Demo.remote
                   [CallInitialize; CallGetSyncManagers] _ _) _ _);
    reflexivity.
Defined.

Lemma world_changed_by_reset_and_fetch_only_witness :
  exists hf,
    drive [] (initializeSyncManagers Demo.env (Demo.fresh Demo.broken))
    = Some (hf, Return false, []) /\
    ((world hf = Demo.broken /\ @nil Awaited = []) \/
     (world hf = fst (resetRegistryInitialization Demo.env Demo.broken) /\
      @nil Awaited = [] /\ Return (E := string) false = Return false) \/
     (world hf = fetchWorkflowsFromDB Demo.env
                   (fst (resetRegistryInitialization Demo.env Demo.broken)) /\
      Return (E := string) false = Return true)).
Proof.
  eexists. split; [reflexivity|].
  exact (@world_changed_by_reset_and_fetch_only _ _ _ Demo.env
           (Demo.fresh Demo.broken) [] _ (Return false) []
           (Forall_nil _) eq_refl).
Defined.

(** Three calls around one fetch: the fetch is started once. *)
Lemma fetch_at_most_once_witness :
  exists c,
    run Demo.env
      [CallInitialize; CallInitialize; Settle 0 (Raise "network down");
       CallInitialize]
      (loaded Demo.remote) = Some c /\
    List.length
      (filter (Call_eqb CFetchWorkflowsFromDB) (calls (heap c))) <= 1.
Proof.
  eexists. split; [reflexivity|].
  apply (@fetch_at_most_once _ _ _ Demo.env Demo.remote
           [CallInitialize; CallInitialize; Settle 0 (Raise "network down");
            CallInitialize]);
    reflexivity.
Defined.
